(** * parse-excel.py: the fashion attribute master parser

    A shallow embedding of [docs/archive/scripts/parse-excel.py].

    Python [str] values are modelled as [string]; the model covers the ASCII
    range (a character above 127 is neither whitespace nor cased here).
    Python [set]s are [gset]s, the combined pandas data frame is a list of
    rows, each a finite map from column name to cell value, a missing cell
    (NaN) being an absent key.  Reading the sheets is input/output and stays
    outside: [parse_excel] is modelled from [combined_df] on. *)

From Stdlib Require Import ZArith Ascii.
From stdpp Require Import base gmap sets list strings.

Local Open Scope Z_scope.

(** ** Python string primitives *)

Module Str.

(** [str.isspace] on one character, ASCII range: TAB, LF, VT, FF, CR,
    FS, GS, RS, US and the space. *)
Definition is_space (c : ascii) : bool :=
  let n := nat_of_ascii c in
  ((9 <=? n)%nat && (n <=? 13)%nat) || ((28 <=? n)%nat && (n <=? 32)%nat).

(** [str.upper] on one character, ASCII range. *)
Definition upper_char (c : ascii) : ascii :=
  let n := nat_of_ascii c in
  if ((97 <=? n)%nat && (n <=? 122)%nat) then ascii_of_nat (n - 32) else c.

Fixpoint smap (f : ascii → ascii) (s : string) : string :=
  match s with
  | EmptyString => EmptyString
  | String c s' => String (f c) (smap f s')
  end.

Definition upper (s : string) : string := smap upper_char s.

(** [s.replace(old, new)] for one-character [old] and [new], the only
    form the script uses. *)
Definition replace (old new : ascii) (s : string) : string :=
  smap (λ c, if decide (c = old) then new else c) s.

Fixpoint lstrip (s : string) : string :=
  match s with
  | EmptyString => EmptyString
  | String c s' => if is_space c then lstrip s' else s
  end.

Fixpoint rstrip (s : string) : string :=
  match s with
  | EmptyString => EmptyString
  | String c s' =>
      match rstrip s' with
      | EmptyString => if is_space c then EmptyString else String c EmptyString
      | r => String c r
      end
  end.

(** [s.strip()] *)
Definition strip (s : string) : string := rstrip (lstrip s).

(** [s.startswith(p)] *)
Fixpoint startswith (p s : string) : bool :=
  match p, s with
  | EmptyString, _ => true
  | String a p', String b s' => if decide (a = b) then startswith p' s' else false
  | String _ _, EmptyString => false
  end.

(** [kw in s] on strings: [kw] occurs in [s] as a substring. *)
Fixpoint contains (kw s : string) : bool :=
  startswith kw s ||
  match s with
  | EmptyString => false
  | String _ s' => contains kw s'
  end.

(** Truthiness of a [str]: non-empty. *)
Definition truthy (s : string) : bool := bool_decide (s ≠ "").

(** [s.isascii()]: every character is below 128.  On such text [is_space],
    [upper_char] and the functions built on them are Python's. *)
Definition is_ascii_char (c : ascii) : bool := (nat_of_ascii c <? 128)%nat.

Fixpoint isascii (s : string) : bool :=
  match s with
  | EmptyString => true
  | String c s' => is_ascii_char c && isascii s'
  end.

End Str.

(** ** Module-level functions of the script *)

(** [normalize_key]: [pd.isna] is false on every [str], so the guard
    [not name or pd.isna(name)] is emptiness of [name]. *)
Definition normalize_key (name : string) : option string :=
  if negb (Str.truthy name) then None
  else Some (Str.upper (Str.replace "/" "_" (Str.replace " " "_"
               (Str.replace "-" "_" (Str.strip name))))).

(** [normalize_key] applied to a result of itself, which may be [None]:
    [not None] holds, so [None] is returned. *)
Definition normalize_key_opt (name : option string) : option string :=
  match name with
  | None => None
  | Some s => normalize_key s
  end.

(** What [normalize_key] does to one character of the stripped header. *)
Definition norm_char (c : ascii) : ascii :=
  Str.upper_char
    (let c := (let c := (if decide (c = "-"%char) then "_"%char else c) in
               if decide (c = " "%char) then "_"%char else c) in
     if decide (c = "/"%char) then "_"%char else c).

Inductive Category := fabric | design | technical | other.

Definition any_in (keywords : list string) (s : string) : bool :=
  existsb (λ kw, Str.contains kw s) keywords.

Definition fabric_keywords : list string :=
  ["YARN"; "WEAVE"; "COMPOSITION"; "FINISH"; "CONSTRUCTION"; "GRAM"; "COUNT";
   "LYCRA"; "FABRIC"].
Definition design_keywords : list string :=
  ["NECK"; "COLLAR"; "SLEEVES"; "CUFF"; "FIT"; "PATTERN"; "STYLE"; "SHAPE";
   "LENGTH"; "PRINT"; "EMBROIDERY"; "WASH"; "POCKET"; "WAIST"; "RISE"; "LEG";
   "PLACKET"].
Definition technical_keywords : list string :=
  ["GSM"; "OUNCE"; "COUNT"; "SHADE"; "SIZE"].

Definition categorize_attribute (attr_name : string) : Category :=
  let attr_upper := Str.upper attr_name in
  if any_in fabric_keywords attr_upper then fabric
  else if any_in design_keywords attr_upper then design
  else if any_in technical_keywords attr_upper then technical
  else other.

Definition non_extractable : list string :=
  ["YARN_01"; "YARN_02"; "WEAVE"; "WEAVE_2"; "COMPOSITION"; "FINISH";
   "CONSTRUCTION"; "GRAM_PER_SQUARE_METER"; "OUNCE"; "COUNT"; "SHADE";
   "FABRIC_MAIN_MVGR"].

Definition is_ai_extractable (key : string) : bool :=
  bool_decide (key ∉ non_extractable).

Definition visible_keywords : list string :=
  ["NECK"; "COLLAR"; "SLEEVES"; "FIT"; "PATTERN"; "COLOR"; "STYLE"; "SHAPE";
   "LENGTH"; "PRINT"; "EMBROIDERY"; "WASH"; "PLACKET"; "POCKET"; "WAIST";
   "RISE"; "LEG"; "CLOSURE"].

Definition is_visible (key : string) : bool := any_in visible_keywords key.

(** The [priorities] dict of [get_priority], as its items in insertion
    order (the order a Python dict iterates in). *)
Definition priorities : list (string * Z) :=
  [("NECK", 95); ("COLLAR", 90); ("SLEEVES", 90); ("FIT", 85); ("PATTERN", 85);
   ("COLOR", 90); ("STYLE", 80); ("LENGTH", 75); ("PRINT", 70);
   ("EMBROIDERY", 65); ("PLACKET", 70); ("POCKET", 65); ("WAIST", 75);
   ("CLOSURE", 70)].

(** The loop [for keyword, priority in items: if keyword in key: return
    priority], followed by the default. *)
Fixpoint first_match (items : list (string * Z)) (key : string) : option Z :=
  match items with
  | [] => None
  | (keyword, priority) :: rest =>
      if Str.contains keyword key then Some priority else first_match rest key
  end.

Definition get_priority (key : string) : Z :=
  match first_match priorities key with
  | Some priority => priority
  | None => 50
  end.

(** The keyword table in the order the specification declares it, and the
    scan the specification describes over it. *)
Definition spec_priorities : list (string * Z) :=
  [("NECK", 95); ("COLOR", 90); ("COLLAR", 90); ("SLEEVES", 90); ("FIT", 85);
   ("PATTERN", 85); ("STYLE", 80); ("WAIST", 75); ("LENGTH", 75); ("PRINT", 70);
   ("PLACKET", 70); ("CLOSURE", 70); ("EMBROIDERY", 65); ("POCKET", 65)].

Definition spec_get_priority (key : string) : Z :=
  match first_match spec_priorities key with
  | Some priority => priority
  | None => 50
  end.

(** [generate_aliases]: both arguments are [str] at every call site, where
    [pd.isna] is false.  The alias [set] is a [gset]; the returned list
    enumerates it (Python fixes no order either) after [filter(None, _)]
    has dropped the empty string. *)
Definition generate_aliases (short_form full_form : string) : list string :=
  let aliases : gset string := ∅ in
  let aliases :=
    if Str.truthy short_form
    then aliases ∪ {[Str.strip short_form]}
                 ∪ {[Str.replace "_" " " short_form]}
                 ∪ {[Str.replace "-" " " short_form]}
    else aliases in
  let aliases :=
    if Str.truthy full_form && bool_decide (full_form ≠ short_form)
    then aliases ∪ {[Str.strip full_form]}
                 ∪ {[Str.replace "_" " " full_form]}
                 ∪ {[Str.replace "-" " " full_form]}
    else aliases in
  elements (filter (λ a, a ≠ "") aliases).

(** ** Output records *)

Record Department := {
  dept_code : string;
  dept_name : string;
  dept_full_name : string }.

Record SubDivision := {
  sub_department_code : string;
  sub_code : string;
  sub_name : string;
  sub_full_name : string }.

Record MajorCategory := {
  mc_sub_division_code : string;
  mc_code : string;
  mc_name : string;
  mc_full_form : option string;
  mc_merchandise_code : option string;
  mc_merchandise_desc : option string;
  mc_fabric_sheet : string }.

Record AttributeValue := {
  av_short_form : string;
  av_full_form : string;
  av_aliases : list string }.

Record Attribute := {
  attr_key : string;
  attr_label : string;
  attr_full_form : string;
  attr_category : Category;
  attr_ai_extractable : bool;
  attr_visible_from_distance : bool;
  attr_extraction_priority : Z;
  attr_allowed_values : list AttributeValue }.

Record CategoryMapping := {
  map_major_category : string;
  map_attribute : string }.

Record Result := {
  departments : list Department;
  sub_divisions : list SubDivision;
  major_categories : list MajorCategory;
  attributes : list Attribute;
  category_mappings : list CategoryMapping }.

Definition HIERARCHY_COLS : list string :=
  ["GMT FAB DIV"; "FINISHED GOOD SEGMENT"; "FINISHED GOOD SEGMENT FULL NAME";
   "FINISHED GOODS DIVISION"; "FINISHED GOODS DIVISION FULL NAME";
   "SUB-DIVISION"; "SUB-DIVISION FULL NAME"; "MAJOR CATEGORY";
   "MAJOR CATEGORY FULL FORM"; "MERCHENDISE CATEGORY CODE";
   "MERCHENDISE CATEGORY DESCRIPTION";
   "MERCHENDISE CATEGORY DESCRIPTION FULL FORM"; "SEASON"; "SEASON FULL NAME";
   "FATHER DESIGN"; "FATHER DESIGN FULL NAME"; "CHILD DESIGN MICRO MVGR";
   "CHILD DESIGN FULL NAME"; "FABRIC DIVISION"; "FABRIC DIVISION FULL NAME";
   "FABRIC_SHEET"].

(** ** pandas operations on the combined table *)

(** [drop_duplicates()] and [unique()]: the first occurrence of every
    element is kept, in order; [seen] holds what came before. *)
Fixpoint drop_duplicates_from {A} `{EqDecision A} (seen l : list A) : list A :=
  match l with
  | [] => []
  | x :: l' =>
      if decide (x ∈ seen) then drop_duplicates_from seen l'
      else x :: drop_duplicates_from (x :: seen) l'
  end.

Definition drop_duplicates {A} `{EqDecision A} (l : list A) : list A :=
  drop_duplicates_from [] l.

Section Model.
Context {value : Type} `{EqDecision value}.
(** Python's [str()] on a cell value. *)
Context (str : value → string).

(** A row of [combined_df]: column name to cell, NaN being absent.  Column
    labels are text (a numeric header cell, which makes the script's
    ['FULL NAME' not in col] raise, is outside the model). *)
Local Abbreviation row := (gmap string value).

Record table := {
  columns : list string;
  rows : list row }.

(** [str(x)] where [x] is a cell that may be NaN. *)
Definition str_cell (c : option value) : string :=
  match c with
  | Some v => str v
  | None => "nan"
  end.

(** [str(x).strip() if not pd.isna(x) else None] *)
Definition opt_cell (c : option value) : option string :=
  (λ v, Str.strip (str v)) <$> c.

(** [df[cols]] on one row. *)
Definition project (cols : list string) (r : row) : row :=
  filter (λ kv, kv.1 ∈ cols) r.

(** [dropna(subset=cols)]; [dropna()] is this with every projected column. *)
Definition dropna (cols : list string) (l : list row) : list row :=
  filter (λ r : row, Forall (λ c, is_Some (r !! c)) cols) l.

Definition dept_cols : list string :=
  ["FINISHED GOODS DIVISION"; "FINISHED GOODS DIVISION FULL NAME"].

Definition departments_of (t : table) : list Department :=
  let dept_df := dropna dept_cols (drop_duplicates (project dept_cols <$> rows t)) in
  (λ r : row,
     let code := Str.strip (str_cell (r !! "FINISHED GOODS DIVISION")) in
     let full_name := Str.strip (str_cell (r !! "FINISHED GOODS DIVISION FULL NAME")) in
     {| dept_code := code; dept_name := code; dept_full_name := full_name |})
  <$> dept_df.

Definition subdiv_cols : list string :=
  ["FINISHED GOODS DIVISION"; "SUB-DIVISION"; "SUB-DIVISION FULL NAME"].

Definition sub_divisions_of (t : table) : list SubDivision :=
  let subdiv_df :=
    dropna subdiv_cols (drop_duplicates (project subdiv_cols <$> rows t)) in
  (λ r : row,
     let dept_code := Str.strip (str_cell (r !! "FINISHED GOODS DIVISION")) in
     let code := Str.strip (str_cell (r !! "SUB-DIVISION")) in
     let full_name := Str.strip (str_cell (r !! "SUB-DIVISION FULL NAME")) in
     {| sub_department_code := dept_code; sub_code := code; sub_name := code;
        sub_full_name := full_name |})
  <$> subdiv_df.

Definition cat_cols : list string :=
  ["SUB-DIVISION"; "MAJOR CATEGORY"; "MAJOR CATEGORY FULL FORM";
   "MERCHENDISE CATEGORY CODE"; "MERCHENDISE CATEGORY DESCRIPTION";
   "FABRIC_SHEET"].

(** One iteration of the major-category loop on the state
    [(major_categories, seen_codes)]. *)
Definition add_category (st : list MajorCategory * gset string) (r : row)
  : list MajorCategory * gset string :=
  let '(major_categories, seen_codes) := st in
  let subdiv_code := Str.strip (str_cell (r !! "SUB-DIVISION")) in
  let original_code := Str.strip (str_cell (r !! "MAJOR CATEGORY")) in
  let full_form := opt_cell (r !! "MAJOR CATEGORY FULL FORM") in
  let merch_code := opt_cell (r !! "MERCHENDISE CATEGORY CODE") in
  let merch_desc := opt_cell (r !! "MERCHENDISE CATEGORY DESCRIPTION") in
  let fabric_sheet := Str.strip (str_cell (r !! "FABRIC_SHEET")) in
  let code :=
    if decide (original_code ∈ seen_codes)
    then original_code +:+ "_" +:+ fabric_sheet
    else original_code in
  (major_categories ++
     [{| mc_sub_division_code := subdiv_code; mc_code := code;
         mc_name := original_code; mc_full_form := full_form;
         mc_merchandise_code := merch_code; mc_merchandise_desc := merch_desc;
         mc_fabric_sheet := fabric_sheet |}],
   {[code]} ∪ seen_codes).

Definition cat_df (t : table) : list row :=
  dropna ["MAJOR CATEGORY"] (drop_duplicates (project cat_cols <$> rows t)).

Definition major_categories_of (t : table) : list MajorCategory :=
  (foldl add_category ([], ∅) (cat_df t)).1.

(** [all_cols] and [attr_cols] *)
Definition all_cols (t : table) : list string :=
  filter (λ col, (col ∉ HIERARCHY_COLS) ∧ (Str.startswith "Unnamed" col = false))
         (columns t).

Definition attr_cols (t : table) : list string :=
  filter (λ col, Str.contains "FULL NAME" col = false) (all_cols t).

(** The body shared by the two value loops, on the state
    [(allowed_values, seen_values)]. *)
Definition add_value (st : list AttributeValue * gset string)
    (sf : string * string) : list AttributeValue * gset string :=
  let '(allowed_values, seen_values) := st in
  let '(short, full) := sf in
  if decide (short ∈ seen_values) then st
  else (allowed_values ++
          [{| av_short_form := short; av_full_form := full;
              av_aliases := generate_aliases short full |}],
        {[short]} ∪ seen_values).

(** The entry the value loops append. *)
Definition mk_value (short full : string) : AttributeValue :=
  {| av_short_form := short; av_full_form := full;
     av_aliases := generate_aliases short full |}.

Definition allowed_values_of (t : table) (col : string) : list AttributeValue :=
  let full_name_col := (col +:+ " FULL NAME") in
  let has_full_names := bool_decide (full_name_col ∈ columns t) in
  let unique_values := drop_duplicates (omap (λ r : row, r !! col) (rows t)) in
  if has_full_names then
    let value_df :=
      dropna [col; full_name_col]
        (drop_duplicates (project [col; full_name_col] <$> rows t)) in
    (foldl add_value ([], ∅)
       ((λ r : row, (Str.strip (str_cell (r !! col)),
                     Str.strip (str_cell (r !! full_name_col)))) <$> value_df)).1
  else
    (foldl add_value ([], ∅)
       ((λ val, let val_str := Str.strip (str val) in (val_str, val_str))
          <$> unique_values)).1.

(** The (short form, full form) candidates of a column, in the order the
    value loop of the script meets them. *)
Definition value_pairs (t : table) (col : string) : list (string * string) :=
  let full_name_col := (col +:+ " FULL NAME") in
  if bool_decide (full_name_col ∈ columns t) then
    (λ r : gmap string value,
       (Str.strip (str_cell (r !! col)),
        Str.strip (str_cell (r !! full_name_col))))
    <$> dropna [col; full_name_col]
          (drop_duplicates (project [col; full_name_col] <$> rows t))
  else
    (λ val, (Str.strip (str val), Str.strip (str val)))
    <$> drop_duplicates (omap (λ r : gmap string value, r !! col) (rows t)).

(** The entry the attribute loop appends for a column and its key. *)
Definition mk_attribute (t : table) (col key : string) : Attribute :=
  {| attr_key := key; attr_label := col; attr_full_form := col;
     attr_category := categorize_attribute key;
     attr_ai_extractable := is_ai_extractable key;
     attr_visible_from_distance := is_visible key;
     attr_extraction_priority := get_priority key;
     attr_allowed_values := allowed_values_of t col |}.

(** One iteration of the attribute loop on the state
    [(attributes, processed_attrs)]. *)
Definition add_attribute (t : table) (st : list Attribute * gset string)
    (col : string) : list Attribute * gset string :=
  let '(attributes, processed_attrs) := st in
  match normalize_key col with
  | None => st
  | Some key =>
      if negb (Str.truthy key) || bool_decide (key ∈ processed_attrs) then st
      else
        (attributes ++
           [{| attr_key := key; attr_label := col; attr_full_form := col;
               attr_category := categorize_attribute key;
               attr_ai_extractable := is_ai_extractable key;
               attr_visible_from_distance := is_visible key;
               attr_extraction_priority := get_priority key;
               attr_allowed_values := allowed_values_of t col |}],
         {[key]} ∪ processed_attrs)
  end.

Definition attributes_of (t : table) : list Attribute :=
  (foldl (add_attribute t) ([], ∅) (attr_cols t)).1.

(** The mapping loops: categories in order of first appearance, NaN
    skipped, then the attribute columns in order. *)
Definition category_mappings_of (t : table) : list CategoryMapping :=
  cat_code ← drop_duplicates ((λ r : row, r !! "MAJOR CATEGORY") <$> rows t);
  match cat_code with
  | None => []
  | Some c =>
      let cat_rows := filter (λ r : row, r !! "MAJOR CATEGORY" = Some c) (rows t) in
      col ← attr_cols t;
      let has_values := bool_decide (Exists (λ r : row, is_Some (r !! col)) cat_rows) in
      if has_values then
        match normalize_key col with
        | Some attr_key =>
            if Str.truthy attr_key
            then [{| map_major_category := Str.strip (str c);
                     map_attribute := attr_key |}]
            else []
        | None => []
        end
      else []
  end.

(** The columns the hierarchy projections index by name; pandas raises
    [KeyError] when one is absent, and the script then prints no result. *)
Definition required_cols : list string :=
  ["FINISHED GOODS DIVISION"; "FINISHED GOODS DIVISION FULL NAME";
   "SUB-DIVISION"; "SUB-DIVISION FULL NAME"; "MAJOR CATEGORY";
   "MAJOR CATEGORY FULL FORM"; "MERCHENDISE CATEGORY CODE";
   "MERCHENDISE CATEGORY DESCRIPTION"; "FABRIC_SHEET"].

(** [parse_excel] from [combined_df] on. *)
Definition parse_excel (t : table) : option Result :=
  if decide (required_cols ⊆ columns t) then
    Some {| departments := departments_of t;
            sub_divisions := sub_divisions_of t;
            major_categories := major_categories_of t;
            attributes := attributes_of t;
            category_mappings := category_mappings_of t |}
  else None.

End Model.

(** ** Reading the workbook *)

Definition SHEETS : list string :=
  ["KNITS-U"; "KNITS-L"; "WOVEN-U"; "WOVEN-L"; "BOTH (K&W)-U"; "BOTH (K&W)-L";
   "BOTH (K&W)-U&L"; "(K&W&D)-U&L"; "DENIM"].

Section Loader.
Context {value : Type} `{EqDecision value}.
Context (str : value → string).
(** A Python [str] as a cell value. *)
Context (of_str : string → value).
(** [pd.read_excel(file_path, sheet_name=name, header=4)]: the data frame of
    the sheet, [None] when the call raises (no such file, no such sheet). *)
Context (read_excel : string → option (table (value := value))).

(** [df['FABRIC_SHEET'] = sheet_name]: the column is set in every row, and
    added after the others when the frame does not have it. *)
Definition tag_sheet (sheet_name : string) (df : table (value := value)) : table :=
  {| columns :=
       if decide ("FABRIC_SHEET" ∈ columns df) then columns df
       else columns df ++ ["FABRIC_SHEET"];
     rows :=
       (λ r : gmap string value, <["FABRIC_SHEET" := of_str sheet_name]> r)
       <$> rows df |}.

(** The loop over [SHEETS]: a sheet whose reading raises is skipped. *)
Definition read_sheets : list (table (value := value)) :=
  omap (λ sheet_name, tag_sheet sheet_name <$> read_excel sheet_name) SHEETS.

(** [pd.concat(all_data, ignore_index=True)]: raises on an empty list;
    otherwise the columns are those of the frames in order of first
    appearance and the rows follow each other, a cell of a column the frame
    does not have being NaN.  Cells are kept as they are: the conversion
    pandas applies to a numeric column that some frame lacks (integers
    become floats) is not modelled, so only text cells, such as those of
    FABRIC_SHEET, are the sheets' own. *)
Definition concat (all_data : list (table (value := value))) : option table :=
  match all_data with
  | [] => None
  | _ =>
      Some {| columns := drop_duplicates (all_data ≫= columns);
              rows := all_data ≫= rows |}
  end.

(** [parse_excel(file_path)], the reading of the sheets included; [None]
    when an exception reaches [__main__], which then exits with status 1. *)
Definition parse_excel_file : option Result :=
  concat read_sheets ≫= parse_excel str.

End Loader.

(** ** Sample tables

    Cells are text here: the cell type is [string] and [str] the identity. *)

Module Sample.

Definition mkrow (cells : list (string * string)) : gmap string string :=
  list_to_map cells.

(** One sheet, one major category listed under three merchandise codes. *)
Definition three_merch_codes : table := {|
  columns := required_cols;
  rows :=
    [mkrow [("SUB-DIVISION", "MENS"); ("MAJOR CATEGORY", "KNIT-TOP");
            ("MERCHENDISE CATEGORY CODE", "M1"); ("FABRIC_SHEET", "KNITS-U")];
     mkrow [("SUB-DIVISION", "MENS"); ("MAJOR CATEGORY", "KNIT-TOP");
            ("MERCHENDISE CATEGORY CODE", "M2"); ("FABRIC_SHEET", "KNITS-U")];
     mkrow [("SUB-DIVISION", "MENS"); ("MAJOR CATEGORY", "KNIT-TOP");
            ("MERCHENDISE CATEGORY CODE", "M3"); ("FABRIC_SHEET", "KNITS-U")]] |}.

(** Two attribute columns with one normalized key; only the first has a
    value. *)
Definition two_spellings : table := {|
  columns := required_cols ++ ["A-B"; "A B"];
  rows :=
    [mkrow [("SUB-DIVISION", "MENS"); ("MAJOR CATEGORY", "X");
            ("FABRIC_SHEET", "KNITS-U"); ("A-B", "v")]] |}.

(** Two categories, attribute columns with and without a companion
    "FULL NAME" column, a repeated value and a short form with two full
    forms. *)
Definition small : table := {|
  columns :=
    required_cols ++
    ["NECK STYLE"; "SLEEVE TYPE"; "SLEEVE TYPE FULL NAME"; "Unnamed: 12"];
  rows :=
    [mkrow [("FINISHED GOODS DIVISION", "M");
            ("FINISHED GOODS DIVISION FULL NAME", "Mens");
            ("SUB-DIVISION", "MU"); ("SUB-DIVISION FULL NAME", "Mens Upper");
            ("MAJOR CATEGORY", "KNIT-TOP"); ("FABRIC_SHEET", "KNITS-U");
            ("NECK STYLE", "Round");
            ("SLEEVE TYPE", "FS"); ("SLEEVE TYPE FULL NAME", "Full Sleeve")];
     mkrow [("FINISHED GOODS DIVISION", "M");
            ("FINISHED GOODS DIVISION FULL NAME", "Mens");
            ("SUB-DIVISION", "MU"); ("SUB-DIVISION FULL NAME", "Mens Upper");
            ("MAJOR CATEGORY", "KNIT-TOP"); ("FABRIC_SHEET", "WOVEN-U");
            ("NECK STYLE", "V-Shape");
            ("SLEEVE TYPE", "FS"); ("SLEEVE TYPE FULL NAME", "Full Slv")];
     mkrow [("FINISHED GOODS DIVISION", "M");
            ("FINISHED GOODS DIVISION FULL NAME", "Mens");
            ("SUB-DIVISION", "ML"); ("SUB-DIVISION FULL NAME", "Mens Lower");
            ("MAJOR CATEGORY", "JEANS"); ("FABRIC_SHEET", "DENIM");
            ("NECK STYLE", "Round")]] |}.

Definition small_run : option Result := parse_excel id small.

(** The header row only: every required column and one attribute column,
    no data row. *)
Definition headers_only : table (value := string) := {|
  columns := required_cols ++ ["NECK STYLE"];
  rows := [] |}.

(** A workbook with two of the nine sheets; reading any other sheet raises. *)
Definition two_sheets (sheet_name : string) : option table :=
  if decide (sheet_name = "KNITS-U") then
    Some {| columns := ["SUB-DIVISION"; "MAJOR CATEGORY"; "NECK STYLE"];
            rows := [mkrow [("SUB-DIVISION", "MU"); ("MAJOR CATEGORY", "KNIT-TOP");
                            ("NECK STYLE", "Round")]] |}
  else if decide (sheet_name = "DENIM") then
    Some {| columns :=
              ["FINISHED GOODS DIVISION"; "FINISHED GOODS DIVISION FULL NAME";
               "SUB-DIVISION"; "SUB-DIVISION FULL NAME"; "MAJOR CATEGORY";
               "MAJOR CATEGORY FULL FORM"; "MERCHENDISE CATEGORY CODE";
               "MERCHENDISE CATEGORY DESCRIPTION"; "WASH"];
            rows := [mkrow [("SUB-DIVISION", "ML"); ("MAJOR CATEGORY", "KNIT-TOP");
                            ("WASH", "Stone")]] |}
  else None.

Definition two_sheets_run : option Result := parse_excel_file id id two_sheets.

(** No file, or none of the nine sheets in it. *)
Definition no_sheets (sheet_name : string) : option (table (value := string)) :=
  None.

(** Only the sheet KNITS-U, which has no division columns. *)
Definition knits_only (sheet_name : string) : option (table (value := string)) :=
  if decide (sheet_name = "KNITS-U") then
    Some {| columns := ["SUB-DIVISION"; "MAJOR CATEGORY"; "NECK STYLE"];
            rows := [mkrow [("SUB-DIVISION", "MU"); ("MAJOR CATEGORY", "KNIT-TOP");
                            ("NECK STYLE", "Round")]] |}
  else None.

End Sample.

(** * Properties *)

(** ** Strings *)

Module StrFacts.
Import Str.

Lemma smap_smap f g s : smap f (smap g s) = smap (λ c, f (g c)) s.
Proof. induction s as [|c s IH]; simpl; [done | by rewrite IH]. Qed.

Lemma smap_ext f g s : (∀ c, f c = g c) → smap f s = smap g s.
Proof. intros E. induction s as [|c s IH]; simpl; [done | by rewrite E, IH]. Qed.

Lemma smap_empty f s : smap f s = "" ↔ s = "".
Proof. by destruct s. Qed.

Lemma lstrip_length s : (String.length (lstrip s) ≤ String.length s)%nat.
Proof.
  induction s as [|c s IH]; simpl; [lia |].
  destruct (is_space c); simpl; lia.
Qed.

Lemma lstrip_fixed s :
  lstrip s = s ↔ s = "" ∨ ∃ c s', s = String c s' ∧ is_space c = false.
Proof.
  split.
  - intros H. destruct s as [|c s]; [by left | right].
    simpl in H. destruct (is_space c) eqn:Ec; [| by eauto].
    pose proof (lstrip_length s) as L. rewrite H in L. simpl in L. lia.
  - intros [-> | (c & s' & -> & Ec)]; simpl; [done | by rewrite Ec].
Qed.

Lemma lstrip_lstrip s : lstrip (lstrip s) = lstrip s.
Proof.
  induction s as [|c s IH]; simpl; [done |].
  destruct (is_space c) eqn:Ec; [done | simpl; by rewrite Ec].
Qed.

Lemma rstrip_rstrip s : rstrip (rstrip s) = rstrip s.
Proof.
  induction s as [|c s IH]; simpl; [done |].
  destruct (rstrip s) as [|d r] eqn:Er.
  - destruct (is_space c) eqn:Ec; simpl; [done | by rewrite Ec].
  - change (rstrip (String c (String d r))) with
      (match rstrip (String d r) with
       | "" => if is_space c then "" else String c ""
       | r' => String c r'
       end).
    by rewrite IH.
Qed.

Lemma lstrip_rstrip s : lstrip s = s → lstrip (rstrip s) = rstrip s.
Proof.
  intros [-> | (c & s' & -> & Ec)]%lstrip_fixed; [done |].
  simpl. destruct (rstrip s'); rewrite ?Ec; simpl; by rewrite Ec.
Qed.

Lemma strip_lstrip s : lstrip (strip s) = strip s.
Proof. apply lstrip_rstrip, lstrip_lstrip. Qed.

Lemma strip_rstrip s : rstrip (strip s) = strip s.
Proof. apply rstrip_rstrip. Qed.

Section Smap.
Variable f : ascii → ascii.
Hypothesis f_space : ∀ c, is_space c = false → is_space (f c) = false.

Lemma lstrip_smap s : lstrip s = s → lstrip (smap f s) = smap f s.
Proof using f_space.
  intros [-> | (c & s' & -> & Ec)]%lstrip_fixed; [done |].
  simpl. by rewrite (f_space _ Ec).
Qed.

Lemma rstrip_smap s : rstrip s = s → rstrip (smap f s) = smap f s.
Proof using f_space.
  induction s as [|c s IH]; [done |].
  simpl. destruct (rstrip s) as [|d r] eqn:Er.
  - destruct (is_space c) eqn:Ec; [done |].
    intros [= <-]. simpl. by rewrite (f_space _ Ec).
  - intros [= E]. rewrite IH by done. rewrite <- E. done.
Qed.

Lemma strip_smap s : lstrip s = s → rstrip s = s → strip (smap f s) = smap f s.
Proof using f_space.
  intros Hl Hr. unfold strip. by rewrite lstrip_smap, rstrip_smap.
Qed.

End Smap.


Lemma norm_char_idem c : norm_char (norm_char c) = norm_char c.
Proof. destruct c as [[] [] [] [] [] [] [] []]; reflexivity. Qed.

Lemma norm_char_space c : is_space c = false → is_space (norm_char c) = false.
Proof. destruct c as [[] [] [] [] [] [] [] []]; vm_compute; congruence. Qed.

Lemma normalize_key_smap s :
  normalize_key s = if truthy s then Some (smap norm_char (strip s)) else None.
Proof.
  unfold normalize_key, upper, replace. destruct (truthy s); simpl; [| done].
  by rewrite !smap_smap.
Qed.

Lemma normalize_key_None s : normalize_key s = None ↔ s = "".
Proof.
  unfold normalize_key, truthy. case_bool_decide; simpl; [| by destruct s].
  split; [done | congruence].
Qed.

Lemma normalize_key_fixed s k :
  normalize_key s = Some k → k ≠ "" → normalize_key k = Some k.
Proof.
  rewrite !normalize_key_smap. destruct (truthy s); [| done].
  intros [= <-] Hk. unfold truthy. rewrite bool_decide_true by done.
  rewrite strip_smap by auto using norm_char_space, strip_lstrip, strip_rstrip.
  by rewrite smap_smap, (smap_ext _ norm_char) by apply norm_char_idem.
Qed.

(** [contains] is the substring relation. *)
Lemma startswith_app kw s : startswith kw (kw +:+ s) = true.
Proof. induction kw as [|c kw IH]; simpl; [done | by rewrite decide_True]. Qed.

Lemma startswith_inv kw s : startswith kw s = true → ∃ post, s = kw +:+ post.
Proof.
  revert s. induction kw as [|c kw IH]; intros s; [by exists s |].
  destruct s as [|d s]; simpl; [done |].
  case_decide; [| done]. intros [post ->]%IH. subst. by exists post.
Qed.

Lemma contains_app pre kw post : contains kw (pre +:+ kw +:+ post) = true.
Proof.
  induction pre as [|c pre IH].
  - change ("" +:+ kw +:+ post) with (kw +:+ post).
    destruct (kw +:+ post) eqn:E; simpl; rewrite <- E, startswith_app; done.
  - change (String c pre +:+ kw +:+ post) with (String c (pre +:+ kw +:+ post)).
    simpl contains. rewrite IH. apply orb_true_r.
Qed.

Lemma contains_inv kw s :
  contains kw s = true → ∃ pre post, s = pre +:+ kw +:+ post.
Proof.
  induction s as [|c s IH]; simpl.
  - rewrite orb_false_r. intros [post ->]%startswith_inv. by exists "", post.
  - intros [[post ->]%startswith_inv | (pre & post & ->)%IH]%orb_true_iff.
    + by exists "", post.
    + by exists (String c pre), post.
Qed.

End StrFacts.

(** ** Key normalization *)

(** C5, as stated, fails: the header made of one space is not empty, its
    key is the empty string, and normalizing that key gives [None]. *)
Lemma normalize_key_blank_not_idempotent :
  Str.truthy " " = true ∧
  normalize_key " " = Some "" ∧
  normalize_key_opt (normalize_key " ") = None.
Proof. by vm_compute. Qed.

(** The same on every non-empty header made of whitespace only. *)
Lemma normalize_key_blank s :
  s ≠ "" → Str.strip s = "" →
  normalize_key s = Some "" ∧ normalize_key_opt (normalize_key s) = None.
Proof.
  intros Hs Hstrip. rewrite StrFacts.normalize_key_smap.
  unfold Str.truthy. rewrite bool_decide_true, Hstrip by done. done.
Qed.

(** C5 (amended): [normalize_key] is idempotent on every ASCII header
    that has a character other than whitespace, that is one whose stripped
    form is not empty; and the key of "SUB-DIVISION NAME" is
    "SUB_DIVISION_NAME". *)
Theorem normalize_key_idempotent :
  (∀ s, Str.isascii s = true → Str.strip s ≠ "" →
        normalize_key_opt (normalize_key s) = normalize_key s) ∧
  normalize_key "SUB-DIVISION NAME" = Some "SUB_DIVISION_NAME".
Proof.
  split; [| reflexivity].
  intros s _ Hs. destruct (normalize_key s) as [k|] eqn:Ek; [| done].
  simpl. apply (StrFacts.normalize_key_fixed s); [done |].
  rewrite StrFacts.normalize_key_smap in Ek.
  destruct (Str.truthy s); [| done]. injection Ek as <-.
  by rewrite StrFacts.smap_empty.
Qed.

Lemma normalize_key_idempotent_witness :
  Str.isascii " Sleeve/Type" = true ∧
  Str.strip " Sleeve/Type" ≠ "" ∧
  normalize_key_opt (normalize_key " Sleeve/Type") = normalize_key " Sleeve/Type" ∧
  normalize_key " Sleeve/Type" = Some "SLEEVE_TYPE".
Proof.
  assert (Str.strip " Sleeve/Type" ≠ "") as H by (vm_compute; congruence).
  split; [reflexivity |]. split; [exact H |].
  split; [| reflexivity].
  exact (proj1 normalize_key_idempotent " Sleeve/Type" eq_refl H).
Defined.

(** ** Extraction priority *)

Lemma first_match_app pre items key :
  Forall (λ i, Str.contains i.1 key = false) pre →
  first_match (pre ++ items) key = first_match items key.
Proof.
  induction 1 as [|[kw p] pre Hkw _ IH]; simpl in *; [done |].
  by rewrite Hkw.
Qed.

Lemma first_match_none items key :
  Forall (λ i, Str.contains i.1 key = false) items →
  first_match items key = None.
Proof.
  intros H. rewrite <- (app_nil_r items). by rewrite first_match_app.
Qed.

(** C2, as stated, fails: the key "FIT_COLOR" contains FIT and COLOR; the script's
    table has FIT before COLOR and answers 85, the order the specification
    declares has COLOR before FIT and gives 90. *)
Lemma get_priority_spec_order_differs :
  normalize_key "Fit Color" = Some "FIT_COLOR" ∧
  Str.contains "FIT" "FIT_COLOR" = true ∧
  Str.contains "COLOR" "FIT_COLOR" = true ∧
  get_priority "FIT_COLOR" = 85 ∧
  spec_get_priority "FIT_COLOR" = 90.
Proof. by vm_compute. Qed.

(** C2 (amended): [get_priority] returns the priority of the first keyword
    contained in the key when the table is scanned in the script's own
    order (NECK=95, COLLAR=90, SLEEVES=90, FIT=85, PATTERN=85, COLOR=90,
    STYLE=80, LENGTH=75, PRINT=70, EMBROIDERY=65, PLACKET=70, POCKET=65,
    WAIST=75, CLOSURE=70), and 50 when no keyword is contained in it. *)
Theorem get_priority_first_match (key : string) :
  priorities =
    [("NECK", 95); ("COLLAR", 90); ("SLEEVES", 90); ("FIT", 85);
     ("PATTERN", 85); ("COLOR", 90); ("STYLE", 80); ("LENGTH", 75);
     ("PRINT", 70); ("EMBROIDERY", 65); ("PLACKET", 70); ("POCKET", 65);
     ("WAIST", 75); ("CLOSURE", 70)] ∧
  (∀ pre kw p post,
     priorities = pre ++ (kw, p) :: post →
     Forall (λ i, Str.contains i.1 key = false) pre →
     Str.contains kw key = true →
     get_priority key = p) ∧
  (Forall (λ i, Str.contains i.1 key = false) priorities →
   get_priority key = 50).
Proof.
  split; [reflexivity |]. unfold get_priority. split.
  - intros pre kw p post -> Hpre Hkw.
    rewrite first_match_app by done. simpl. by rewrite Hkw.
  - intros H. by rewrite first_match_none.
Qed.

Lemma get_priority_first_match_witness :
  get_priority "FIT_COLOR" = 85 ∧ get_priority "SIZE" = 50.
Proof.
  split.
  - apply (proj1 (proj2 (get_priority_first_match "FIT_COLOR"))
             [("NECK", 95); ("COLLAR", 90); ("SLEEVES", 90)] "FIT" 85
             [("PATTERN", 85); ("COLOR", 90); ("STYLE", 80); ("LENGTH", 75);
              ("PRINT", 70); ("EMBROIDERY", 65); ("PLACKET", 70);
              ("POCKET", 65); ("WAIST", 75); ("CLOSURE", 70)]).
    + reflexivity.
    + repeat constructor.
    + reflexivity.
  - apply (proj2 (proj2 (get_priority_first_match "SIZE"))).
    repeat constructor.
Defined.

Lemma get_priority_neck_app pre post :
  get_priority (pre +:+ "NECK" +:+ post) = 95.
Proof.
  unfold get_priority, priorities. simpl. by rewrite StrFacts.contains_app.
Qed.

(** The same with Python's [in] test as the script writes it. *)
Lemma get_priority_neck key :
  Str.contains "NECK" key = true → get_priority key = 95.
Proof.
  intros (pre & post & ->)%StrFacts.contains_inv. apply get_priority_neck_app.
Qed.

(** C7: the priority is always an integer in [1,100], and a key in which
    "NECK" occurs has priority 95, whatever other keywords occur in it. *)
Theorem get_priority_range_neck :
  (∀ key, 1 ≤ get_priority key ≤ 100) ∧
  (∀ pre post, get_priority (pre +:+ "NECK" +:+ post) = 95).
Proof.
  split; [| apply get_priority_neck_app].
  intros key. unfold get_priority, priorities. simpl.
  repeat (destruct (Str.contains _ key); [lia |]). lia.
Qed.

(** ** Aliases *)

Lemma elem_of_generate_aliases a short_form full_form :
  a ∈ generate_aliases short_form full_form ↔
  a ≠ "" ∧
  ((short_form ≠ "" ∧
    (a = Str.strip short_form ∨ a = Str.replace "_" " " short_form ∨
     a = Str.replace "-" " " short_form)) ∨
   (full_form ≠ "" ∧ full_form ≠ short_form ∧
    (a = Str.strip full_form ∨ a = Str.replace "_" " " full_form ∨
     a = Str.replace "-" " " full_form))).
Proof.
  unfold generate_aliases, Str.truthy.
  rewrite elem_of_elements, elem_of_filter.
  repeat case_bool_decide; simpl;
    rewrite ?elem_of_union, ?elem_of_singleton, ?elem_of_empty; tauto.
Qed.

(** C8: the aliases of "V-NECK" / "V Neck" include "V-NECK" and "V NECK";
    no alias list holds the empty string; and when the full form equals the
    short form every alias is the stripped short form, the short form with
    underscores turned to spaces, or the short form with hyphens turned to
    spaces. *)
Theorem generate_aliases_spec :
  ("V-NECK" ∈ generate_aliases "V-NECK" "V Neck" ∧
   "V NECK" ∈ generate_aliases "V-NECK" "V Neck") ∧
  (∀ short_form full_form, "" ∉ generate_aliases short_form full_form) ∧
  (∀ short_form a,
     a ∈ generate_aliases short_form short_form →
     a = Str.strip short_form ∨ a = Str.replace "_" " " short_form ∨
     a = Str.replace "-" " " short_form).
Proof.
  split; [| split].
  - split; apply elem_of_generate_aliases; (split; [done |]); left;
      (split; [done |]); vm_compute; auto.
  - intros s f [H _]%elem_of_generate_aliases. done.
  - intros s a [_ [[_ H] | (_ & H & _)]]%elem_of_generate_aliases; done.
Qed.

Lemma generate_aliases_spec_witness :
  "A B" ∈ generate_aliases "A_B" "A_B" ∧
  ("A B" = Str.strip "A_B" ∨ "A B" = Str.replace "_" " " "A_B" ∨
   "A B" = Str.replace "-" " " "A_B").
Proof.
  assert ("A B" ∈ generate_aliases "A_B" "A_B") as H
    by (vm_compute; repeat constructor).
  split; [exact H |].
  exact (proj2 (proj2 generate_aliases_spec) "A_B" "A B" H).
Defined.

(** ** Lists and loops *)

Lemma elem_of_drop_duplicates_from {A} `{EqDecision A} (seen l : list A) x :
  x ∈ drop_duplicates_from seen l ↔ x ∈ l ∧ x ∉ seen.
Proof.
  revert seen. induction l as [|y l IH]; intros seen; simpl.
  - rewrite elem_of_nil. tauto.
  - case_decide as Hy.
    + rewrite IH, elem_of_cons. split; [tauto |].
      intros [[-> | ?] ?]; tauto.
    + rewrite !elem_of_cons, IH, elem_of_cons.
      destruct (decide (x = y)) as [-> | ?]; tauto.
Qed.

Lemma elem_of_drop_duplicates {A} `{EqDecision A} (l : list A) x :
  x ∈ drop_duplicates l ↔ x ∈ l.
Proof.
  unfold drop_duplicates. rewrite elem_of_drop_duplicates_from, elem_of_nil. tauto.
Qed.

Lemma NoDup_drop_duplicates_from {A} `{EqDecision A} (seen l : list A) :
  NoDup (drop_duplicates_from seen l).
Proof.
  revert seen. induction l as [|y l IH]; intros seen; simpl; [constructor |].
  case_decide; [done |]. constructor; [| done].
  rewrite elem_of_drop_duplicates_from, elem_of_cons. tauto.
Qed.

(** A split of [l ++ [x]] around an element either ends at [x] or splits [l]. *)
Lemma snoc_split {A} (l pre post : list A) x y :
  l ++ [x] = pre ++ y :: post →
  (post = [] ∧ pre = l ∧ y = x) ∨ (∃ post', post = post' ++ [x] ∧ l = pre ++ y :: post').
Proof.
  destruct post as [|z post _] using rev_ind.
  - intros [-> ->]%(app_inj_tail l pre). by left.
  - rewrite app_comm_cons, app_assoc. intros [-> ->]%app_inj_tail.
    right. by exists post.
Qed.

(** ** Major categories *)

Section MajorCategories.
Context {value : Type} `{EqDecision value} (str : value → string).

Lemma add_category_fst st (r : gmap string value) :
  ∃ mc, (add_category str st r).1 = st.1 ++ [mc] ∧
        mc_name mc = Str.strip (str_cell str (r !! "MAJOR CATEGORY")) ∧
        mc_fabric_sheet mc = Str.strip (str_cell str (r !! "FABRIC_SHEET")) ∧
        mc_code mc =
          (if decide (mc_name mc ∈ st.2)
           then mc_name mc +:+ "_" +:+ mc_fabric_sheet mc else mc_name mc) ∧
        (add_category str st r).2 = {[mc_code mc]} ∪ st.2.
Proof. destruct st as [cats seen]. simpl. eexists. by repeat split. Qed.

(** No row of [cat_df] is dropped by the loop. *)
Lemma major_categories_length t :
  length (major_categories_of str t) = length (cat_df t).
Proof.
  unfold major_categories_of.
  induction (cat_df t) as [|r l IH] using rev_ind; [done |].
  rewrite foldl_app. simpl.
  destruct (add_category_fst (foldl (add_category str) ([], ∅) l) r)
    as (mc & -> & _).
  rewrite !length_app, IH. done.
Qed.

(** Every entry keeps the original name, and its code is the name or the
    name suffixed with the sheet. *)
Lemma major_categories_code t mc :
  mc ∈ major_categories_of str t →
  mc_code mc = mc_name mc ∨
  mc_code mc = mc_name mc +:+ "_" +:+ mc_fabric_sheet mc.
Proof.
  unfold major_categories_of.
  induction (cat_df t) as [|r l IH] using rev_ind; simpl.
  - by intros ?%elem_of_nil.
  - rewrite foldl_app. simpl.
    destruct (add_category_fst (foldl (add_category str) ([], ∅) l) r)
      as (mc' & -> & _ & _ & Hcode & _).
    intros [? | ->%list_elem_of_singleton]%elem_of_app; [by apply IH |].
    rewrite Hcode. case_decide; auto.
Qed.

(** The names are those of the rows of [cat_df], one entry a row, in order. *)
Lemma major_categories_names t :
  mc_name <$> major_categories_of str t =
  (λ r : gmap string value, Str.strip (str_cell str (r !! "MAJOR CATEGORY")))
    <$> cat_df t.
Proof.
  unfold major_categories_of.
  induction (cat_df t) as [|r l IH] using rev_ind; [done |].
  rewrite foldl_app. simpl.
  destruct (add_category_fst (foldl (add_category str) ([], ∅) l) r)
    as (mc & -> & Hname & _).
  rewrite !fmap_app, IH. simpl. by rewrite Hname.
Qed.

End MajorCategories.

(** C1 on the code: three rows of one sheet with the same major category
    and three merchandise codes survive [drop_duplicates]; the second and
    the third both find "KNIT-TOP" in [seen_codes] and both get the code
    "KNIT-TOP_KNITS-U". *)
Theorem major_category_codes_collide :
  (λ r, mc_code <$> major_categories r) <$> parse_excel id Sample.three_merch_codes
  = Some ["KNIT-TOP"; "KNIT-TOP_KNITS-U"; "KNIT-TOP_KNITS-U"].
Proof. vm_compute. reflexivity. Qed.

(** ** Allowed values *)


Lemma add_value_step st short full :
  add_value st (short, full) =
  if decide (short ∈ st.2) then st
  else (st.1 ++ [mk_value short full], {[short]} ∪ st.2).
Proof. by destruct st. Qed.

Section ValueLoop.
Implicit Types (l : list (string * string)) (v : AttributeValue).

(** [seen_values] holds the short forms met so far. *)
Lemma value_loop_seen l s :
  s ∈ (foldl add_value ([], ∅) l).2 ↔ s ∈ l.*1.
Proof.
  induction l as [|[short full] l IH] using rev_ind; simpl.
  - rewrite elem_of_empty, elem_of_nil. tauto.
  - rewrite foldl_app, fmap_app, elem_of_app. simpl.
    rewrite add_value_step, list_elem_of_singleton. case_decide as Hin; simpl.
    + rewrite IH. split; [tauto |]. intros [? | ->]; [done |].
      by apply IH.
    + rewrite elem_of_union, elem_of_singleton, IH. tauto.
Qed.

(** First occurrence wins: an entry is kept exactly for a pair that no
    earlier pair shares its short form with. *)
Lemma value_loop_first l v :
  v ∈ (foldl add_value ([], ∅) l).1 ↔
  ∃ pre full post,
    l = pre ++ (av_short_form v, full) :: post ∧
    (av_short_form v ∉ pre.*1) ∧
    v = mk_value (av_short_form v) full.
Proof.
  induction l as [|[short full] l IH] using rev_ind; simpl.
  - rewrite elem_of_nil. split; [done |].
    intros (pre & f & post & E & _). by destruct pre.
  - rewrite foldl_app. simpl. rewrite add_value_step.
    pose proof (value_loop_seen l short) as Hseen.
    assert (v ∈ (foldl add_value ([], ∅) l).1 →
            ∃ pre f post, l ++ [(short, full)] = pre ++ (av_short_form v, f) :: post ∧
                          (av_short_form v ∉ pre.*1) ∧ v = mk_value (av_short_form v) f)
      as Hold.
    { intros (pre & f & post & -> & ? & ?)%IH.
      exists pre, f, (post ++ [(short, full)]). by rewrite <- app_assoc. }
    case_decide as Hin; simpl.
    + split; [done |]. intros (pre & f & post & E & Hpre & Hv).
      apply snoc_split in E as [(-> & -> & [= <- <-]) | (post' & -> & ->)].
      * by apply Hseen in Hin.
      * apply IH. eauto 6.
    + rewrite elem_of_app, list_elem_of_singleton. split.
      * intros [? | ->]; [auto |].
        exists l, full, []. simpl. by rewrite <- Hseen.
      * intros (pre & f & post & E & Hpre & Hv).
        apply snoc_split in E as [(-> & -> & [= <- <-]) | (post' & -> & ->)].
        -- by right.
        -- left. apply IH. eauto 6.
Qed.

Lemma value_loop_NoDup l :
  NoDup (av_short_form <$> (foldl add_value ([], ∅) l).1).
Proof.
  induction l as [|[short full] l IH] using rev_ind; simpl; [constructor |].
  rewrite foldl_app. simpl. rewrite add_value_step.
  case_decide as Hin; [done |]. simpl.
  rewrite fmap_app. apply NoDup_app. split; [done |]. split.
  - intros s (v & -> & (pre & f & post & E & _)%value_loop_first)%list_elem_of_fmap.
    simpl. intros Hs%list_elem_of_singleton. apply Hin, value_loop_seen.
    rewrite E, fmap_app, elem_of_app. right. simpl. rewrite Hs. left.
  - apply NoDup_singleton.
Qed.

End ValueLoop.

(** ** The attribute catalog *)

Section Attributes.
Context {value : Type} `{EqDecision value} (str : value → string).
Implicit Types (t : table (value := value)) (a : Attribute).


Lemma allowed_values_of_pairs t col :
  allowed_values_of str t col = (foldl add_value ([], ∅) (value_pairs str t col)).1.
Proof. unfold allowed_values_of, value_pairs. by case_bool_decide. Qed.


Lemma add_attribute_step t st col :
  add_attribute str t st col =
  match normalize_key col with
  | Some key =>
      if decide (key ≠ "" ∧ key ∉ st.2)
      then (st.1 ++ [mk_attribute str t col key], {[key]} ∪ st.2)
      else st
  | None => st
  end.
Proof.
  destruct st as [attrs seen]. unfold add_attribute, Str.truthy. simpl.
  destruct (normalize_key col) as [key|]; [| done].
  repeat case_bool_decide; simpl; case_decide; tauto.
Qed.

(** [processed_attrs] holds the non-empty keys of the columns met so far. *)
Lemma attribute_loop_processed t cols k :
  k ∈ (foldl (add_attribute str t) ([], ∅) cols).2 ↔
  k ≠ "" ∧ ∃ col, col ∈ cols ∧ normalize_key col = Some k.
Proof.
  induction cols as [|c cols IH] using rev_ind; simpl.
  - rewrite elem_of_empty. split; [done |].
    by intros (_ & col & ?%elem_of_nil & _).
  - rewrite foldl_app. simpl. rewrite add_attribute_step.
    assert ((∃ col, col ∈ cols ++ [c] ∧ normalize_key col = Some k) ↔
            (∃ col, col ∈ cols ∧ normalize_key col = Some k) ∨
            normalize_key c = Some k) as ->.
    { setoid_rewrite elem_of_app. setoid_rewrite list_elem_of_singleton.
      split; [intros (col & [? | ->] & ?); eauto | ].
      intros [(col & ? & ?) | ?]; eauto. }
    destruct (normalize_key c) as [key|] eqn:Ec; [case_decide as Hk |]; simpl.
    + rewrite elem_of_union, elem_of_singleton, IH.
      split; [intros [-> | ?]; [split; [tauto | by right] | tauto] |].
      intros (? & [? | [= ->]]); auto.
    + rewrite IH. split; [tauto |]. intros (Hne & [? | [= ->]]); [done |].
      apply IH. destruct (decide (k ∈ (foldl (add_attribute str t) ([], ∅) cols).2))
        as [Hin | Hin]; [done | tauto].
    + rewrite IH. split; [tauto |]. by intros (? & [? | ?]).
Qed.

(** First occurrence wins: an attribute is in the catalog exactly for a
    column whose key is not empty and is the key of no earlier column. *)
Lemma attribute_loop_first t cols a :
  a ∈ (foldl (add_attribute str t) ([], ∅) cols).1 ↔
  ∃ pre col post,
    cols = pre ++ col :: post ∧
    normalize_key col = Some (attr_key a) ∧
    attr_key a ≠ "" ∧
    (∀ col', col' ∈ pre → normalize_key col' ≠ Some (attr_key a)) ∧
    a = mk_attribute str t col (attr_key a).
Proof.
  induction cols as [|c cols IH] using rev_ind; simpl.
  - rewrite elem_of_nil. split; [done |].
    intros (pre & col & post & E & _). by destruct pre.
  - rewrite foldl_app. simpl. rewrite add_attribute_step.
    pose proof (attribute_loop_processed t cols) as Hseen.
    assert (a ∈ (foldl (add_attribute str t) ([], ∅) cols).1 →
            ∃ pre col post,
              cols ++ [c] = pre ++ col :: post ∧
              normalize_key col = Some (attr_key a) ∧ attr_key a ≠ "" ∧
              (∀ col', col' ∈ pre → normalize_key col' ≠ Some (attr_key a)) ∧
              a = mk_attribute str t col (attr_key a)) as Hold.
    { intros (pre & col & post & -> & ?)%IH.
      exists pre, col, (post ++ [c]). by rewrite <- app_assoc. }
    assert (∀ pre col post,
              cols ++ [c] = pre ++ col :: post →
              normalize_key col = Some (attr_key a) → attr_key a ≠ "" →
              (∀ col', col' ∈ pre → normalize_key col' ≠ Some (attr_key a)) →
              a = mk_attribute str t col (attr_key a) →
              a ∈ (foldl (add_attribute str t) ([], ∅) cols).1 ∨
              (normalize_key c = Some (attr_key a) ∧
               (attr_key a ∉ (foldl (add_attribute str t) ([], ∅) cols).2) ∧
               a = mk_attribute str t c (attr_key a))) as Hnew.
    { intros pre col post E Hk Hne Hpre Ha.
      apply snoc_split in E as [(-> & -> & ->) | (post' & -> & ->)].
      - right. split; [done |]. split; [| done].
        intros (_ & col' & Hin & Hk')%Hseen. by apply (Hpre col').
      - left. apply IH. eauto 8. }
    destruct (normalize_key c) as [key|] eqn:Ec; [case_decide as Hk |]; simpl.
    + rewrite elem_of_app, list_elem_of_singleton. split.
      * intros [? | ->]; [auto |]. exists cols, c, []. simpl.
        repeat split; [done | tauto |].
        intros col' Hin Hk'. apply Hk. apply Hseen. split; [tauto | eauto].
      * intros (pre & col & post & E & ? & ? & ? & ?).
        destruct (Hnew pre col post) as [? | ([= ->] & _ & ?)]; auto.
    + split; [auto |]. intros (pre & col & post & E & ? & ? & ? & ?).
      destruct (Hnew pre col post) as [? | ([= ->] & ? & _)]; auto.
      exfalso. apply Hk. tauto.
    + split; [auto |]. intros (pre & col & post & E & ? & ? & ? & ?).
      destruct (Hnew pre col post) as [? | (? & _)]; auto. done.
Qed.

Lemma attribute_loop_NoDup t cols :
  NoDup (attr_key <$> (foldl (add_attribute str t) ([], ∅) cols).1).
Proof.
  induction cols as [|c cols IH] using rev_ind; simpl; [constructor |].
  rewrite foldl_app. simpl. rewrite add_attribute_step.
  destruct (normalize_key c) as [key|] eqn:Ec; [case_decide as Hk |]; try done.
  simpl. rewrite fmap_app. apply NoDup_app. split; [done |]. split.
  - intros k (a & -> & (pre & col & post & E & Ha & Hne & _)%attribute_loop_first)
      %list_elem_of_fmap.
    simpl. intros Hs%list_elem_of_singleton. rewrite Hs in Ha.
    destruct Hk as [Hkne Hk]. apply Hk, attribute_loop_processed.
    split; [done |]. exists col. split; [| done].
    rewrite E, elem_of_app, elem_of_cons. auto.
  - apply NoDup_singleton.
Qed.

(** Every non-empty key of an attribute column is a key of the catalog. *)
Lemma attribute_loop_covers t cols col k :
  col ∈ cols → normalize_key col = Some k → k ≠ "" →
  k ∈ attr_key <$> (foldl (add_attribute str t) ([], ∅) cols).1.
Proof.
  intros Hin Hk Hne. revert col Hin Hk.
  induction cols as [|c cols IH] using rev_ind; intros col.
  - by intros ?%elem_of_nil.
  - rewrite foldl_app. simpl. rewrite add_attribute_step.
    pose proof (attribute_loop_processed t cols k) as Hseen.
    intros [Hin | ->%list_elem_of_singleton]%elem_of_app Hk.
    + specialize (IH col Hin Hk).
      destruct (normalize_key c); [case_decide |]; simpl; try done.
      rewrite fmap_app, elem_of_app. by left.
    + rewrite Hk. case_decide as Hd; simpl.
      * rewrite fmap_app, elem_of_app. right. simpl. left.
      * assert (k ∈ (foldl (add_attribute str t) ([], ∅) cols).2) as Hp.
        { destruct (decide (k ∈ (foldl (add_attribute str t) ([], ∅) cols).2));
            [done | tauto]. }
        apply Hseen in Hp as (_ & col' & Hin' & Hk'). by apply (IH col').
Qed.

End Attributes.

(** ** Category mappings *)

Section Mappings.
Context {value : Type} `{EqDecision value} (str : value → string).
Implicit Types (t : table (value := value)) (e : CategoryMapping).

(** An edge is emitted exactly for a category value and an attribute
    column that some row of that category fills. *)
Lemma elem_of_category_mappings t e :
  e ∈ category_mappings_of str t ↔
  ∃ c col (r : gmap string value),
    r ∈ rows t ∧ r !! "MAJOR CATEGORY" = Some c ∧
    col ∈ attr_cols t ∧ is_Some (r !! col) ∧
    normalize_key col = Some (map_attribute e) ∧ map_attribute e ≠ "" ∧
    map_major_category e = Str.strip (str c).
Proof.
  unfold category_mappings_of. rewrite list_elem_of_bind. split.
  - intros ([c|] & He & Hc); [| by apply elem_of_nil in He].
    apply list_elem_of_bind in He as (col & He & Hcol).
    case_bool_decide as Hex; [| by apply elem_of_nil in He].
    destruct (normalize_key col) as [k|] eqn:Ek; [| by apply elem_of_nil in He].
    unfold Str.truthy in He. case_bool_decide; [| by apply elem_of_nil in He].
    apply list_elem_of_singleton in He as ->. simpl.
    apply Exists_exists in Hex as (r & [Hr Hin]%list_elem_of_filter & Hsome).
    by exists c, col, r.
  - intros (c & col & r & Hin & Hc & Hcol & Hsome & Hk & Hne & Hm).
    exists (Some c). split.
    + apply list_elem_of_bind. exists col. split; [| done].
      rewrite bool_decide_true.
      * rewrite Hk. unfold Str.truthy. rewrite bool_decide_true by done.
        apply list_elem_of_singleton. destruct e; simpl in *; by subst.
      * apply Exists_exists. exists r. by rewrite list_elem_of_filter.
    + apply elem_of_drop_duplicates, list_elem_of_fmap. by exists r.
Qed.

(** When no other attribute column has the key of [col] and no other
    category value has the stripped text of [c], the edge from [c] to the
    key of [col] is in the output exactly when a row of [c] fills [col]. *)
Lemma category_mappings_iff t c col k :
  (∀ col', col' ∈ attr_cols t → normalize_key col' = Some k → col' = col) →
  (∀ c' (r : gmap string value),
     r ∈ rows t → r !! "MAJOR CATEGORY" = Some c' →
     Str.strip (str c') = Str.strip (str c) → c' = c) →
  col ∈ attr_cols t → normalize_key col = Some k →
  {| map_major_category := Str.strip (str c); map_attribute := k |}
    ∈ category_mappings_of str t ↔
  k ≠ "" ∧
  ∃ r : gmap string value,
    r ∈ rows t ∧ r !! "MAJOR CATEGORY" = Some c ∧ is_Some (r !! col).
Proof.
  intros Hcol Hcat Hin Hk. rewrite elem_of_category_mappings. simpl. split.
  - intros (c' & col' & r & Hr & Hc & Hin' & Hsome & Hk' & Hne & Hm).
    split; [done |]. exists r.
    rewrite (Hcol col' Hin' Hk') in Hsome. by rewrite <- (Hcat c' r Hr Hc).
  - intros (Hne & r & Hr & Hc & Hsome). by exists c, col, r.
Qed.

End Mappings.

(** ** The output of a run *)

Section Run.
Context {value : Type} `{EqDecision value} (str : value → string).
Implicit Types (t : table (value := value)) (r : Result).

Lemma parse_excel_Some t r :
  parse_excel str t = Some r →
  major_categories r = major_categories_of str t ∧
  attributes r = attributes_of str t ∧
  category_mappings r = category_mappings_of str t.
Proof. unfold parse_excel. case_decide; [| done]. by intros [= <-]. Qed.

(** C3: the keys of the attribute catalog are pairwise distinct, and the
    catalog holds an attribute exactly for the first column of each
    non-empty normalized key (a later column with that key is skipped). *)
Theorem attribute_keys_distinct t r :
  parse_excel str t = Some r →
  NoDup (attr_key <$> attributes r) ∧
  (∀ a, a ∈ attributes r ↔
        ∃ pre col post,
          attr_cols t = pre ++ col :: post ∧
          normalize_key col = Some (attr_key a) ∧ attr_key a ≠ "" ∧
          (∀ col', col' ∈ pre → normalize_key col' ≠ Some (attr_key a)) ∧
          a = mk_attribute str t col (attr_key a)).
Proof.
  intros (_ & -> & _)%parse_excel_Some. unfold attributes_of. split.
  - apply attribute_loop_NoDup.
  - intros a. apply attribute_loop_first.
Qed.

(** C4: within every attribute of the output the short forms of the
    allowed values are pairwise distinct; of the candidate (short form,
    full form) pairs of the attribute's column, exactly the first of each
    short form is kept, whatever full forms the later ones carry. *)
Theorem short_forms_distinct t r a :
  parse_excel str t = Some r → a ∈ attributes r →
  NoDup (av_short_form <$> attr_allowed_values a) ∧
  (∀ v, v ∈ attr_allowed_values a ↔
        ∃ pre full post,
          value_pairs str t (attr_label a) =
            pre ++ (av_short_form v, full) :: post ∧
          (av_short_form v ∉ pre.*1) ∧
          v = mk_value (av_short_form v) full).
Proof.
  intros (_ & -> & _)%parse_excel_Some.
  intros (pre & col & post & _ & _ & _ & _ & ->)%attribute_loop_first. simpl.
  rewrite allowed_values_of_pairs. split.
  - apply value_loop_NoDup.
  - intros v. apply value_loop_first.
Qed.

(** C6 (amended): if a row whose major category is [c] has a value in an
    attribute column whose normalized key is not empty, the output holds
    the edge from [c] stripped to that key; and every edge of the output
    comes from some category value with that stripped text and some
    attribute column with that key, for which such a row exists. *)
Theorem category_mappings_complete t r :
  parse_excel str t = Some r →
  (∀ c col k (row : gmap string value),
     row ∈ rows t → row !! "MAJOR CATEGORY" = Some c →
     col ∈ attr_cols t → is_Some (row !! col) →
     normalize_key col = Some k → k ≠ "" →
     {| map_major_category := Str.strip (str c); map_attribute := k |}
       ∈ category_mappings r) ∧
  (∀ e, e ∈ category_mappings r →
        ∃ c col (row : gmap string value),
          row ∈ rows t ∧ row !! "MAJOR CATEGORY" = Some c ∧
          col ∈ attr_cols t ∧ is_Some (row !! col) ∧
          normalize_key col = Some (map_attribute e) ∧ map_attribute e ≠ "" ∧
          map_major_category e = Str.strip (str c)).
Proof.
  intros (_ & _ & ->)%parse_excel_Some. split.
  - intros c col k row ? ? ? ? ? ?. apply elem_of_category_mappings.
    by exists c, col, row.
  - intros e. apply elem_of_category_mappings.
Qed.

(** C9: the attribute of every mapping edge is the key of an attribute of
    the catalog. *)
Theorem mapping_attribute_in_catalog t r e :
  parse_excel str t = Some r → e ∈ category_mappings r →
  ∃ a, a ∈ attributes r ∧ attr_key a = map_attribute e.
Proof.
  intros (_ & -> & ->)%parse_excel_Some.
  intros (c & col & row & _ & _ & Hcol & _ & Hk & Hne & _)%elem_of_category_mappings.
  pose proof (attribute_loop_covers str t _ _ _ Hcol Hk Hne) as Hin.
  apply list_elem_of_fmap in Hin as (a & Ha & Hin). by exists a.
Qed.

(** C10: the label and the full form of every attribute of the output are
    the raw header of the attribute column its key was normalized from,
    hence equal. *)
Theorem attribute_label_is_header t r a :
  parse_excel str t = Some r → a ∈ attributes r →
  attr_label a = attr_full_form a ∧
  ∃ col, col ∈ attr_cols t ∧ col ∈ columns t ∧
         normalize_key col = Some (attr_key a) ∧
         attr_label a = col ∧ attr_full_form a = col.
Proof.
  intros (_ & -> & _)%parse_excel_Some.
  intros (pre & col & post & E & Hk & _ & _ & ->)%attribute_loop_first. simpl.
  split; [done |]. exists col.
  assert (col ∈ attr_cols t) as Hin
    by (rewrite E, elem_of_app, elem_of_cons; auto).
  repeat split; try done.
  unfold attr_cols, all_cols in Hin.
  by apply list_elem_of_filter in Hin as [_ [_ ?]%list_elem_of_filter].
Qed.

End Run.

(** ** The sample tables *)


Lemma attribute_keys_distinct_witness :
  ∃ r, Sample.small_run = Some r ∧
       attr_key <$> attributes r = ["NECK_STYLE"; "SLEEVE_TYPE"] ∧
       NoDup (attr_key <$> attributes r).
Proof.
  eexists. split; [vm_compute; reflexivity |]. split; [reflexivity |].
  eapply proj1, (attribute_keys_distinct id Sample.small).
  vm_compute. reflexivity.
Defined.

Lemma short_forms_distinct_witness :
  ∃ r a, Sample.small_run = Some r ∧ a ∈ attributes r ∧
         attr_key a = "SLEEVE_TYPE" ∧
         value_pairs id Sample.small (attr_label a) =
           [("FS", "Full Sleeve"); ("FS", "Full Slv")] ∧
         (av_short_form <$> attr_allowed_values a) = ["FS"] ∧
         NoDup (av_short_form <$> attr_allowed_values a).
Proof.
  assert (∀ (x y : Attribute) l, y ∈ x :: y :: l) as Hsnd
    by (intros; apply elem_of_cons; right; apply elem_of_cons; by left).
  eexists. eexists. split; [vm_compute; reflexivity |].
  split; [apply Hsnd |].
  split; [reflexivity |]. split; [vm_compute; reflexivity |].
  split; [reflexivity |].
  eapply proj1, (short_forms_distinct id Sample.small).
  - vm_compute. reflexivity.
  - apply Hsnd.
Defined.

(** C6, as stated, fails: "A-B" and "A B" are two attribute columns with
    the key "A_B"; the only row, of category "X", has a value in "A-B" and
    none in "A B"; the edge from "X" to "A_B" is in the output, yet no row
    of category "X" has a value in the column "A B". *)
Lemma mapping_edge_without_value :
  Some "X" ∈ (λ r : gmap string string, r !! "MAJOR CATEGORY")
               <$> rows Sample.two_spellings ∧
  "A B" ∈ attr_cols Sample.two_spellings ∧
  normalize_key "A B" = Some "A_B" ∧
  (category_mappings <$> parse_excel id Sample.two_spellings) =
    Some [{| map_major_category := "X"; map_attribute := "A_B" |}] ∧
  ¬ ∃ r : gmap string string,
      r ∈ rows Sample.two_spellings ∧ r !! "MAJOR CATEGORY" = Some "X" ∧
      is_Some (r !! "A B").
Proof.
  split; [compute_done |]. split; [compute_done |]. split; [reflexivity |].
  split; [vm_compute; reflexivity |].
  intros (r & ->%list_elem_of_singleton & _ & [v Hv]).
  vm_compute in Hv. discriminate.
Qed.

Lemma category_mappings_complete_witness :
  ∃ r, Sample.small_run = Some r ∧
       {| map_major_category := "JEANS"; map_attribute := "NECK_STYLE" |}
         ∈ category_mappings r.
Proof.
  eexists. split; [vm_compute; reflexivity |].
  eapply (proj1 (category_mappings_complete id Sample.small _ _)
            "JEANS" "NECK STYLE" "NECK_STYLE"
            (Sample.mkrow
               [("FINISHED GOODS DIVISION", "M");
                ("FINISHED GOODS DIVISION FULL NAME", "Mens");
                ("SUB-DIVISION", "ML"); ("SUB-DIVISION FULL NAME", "Mens Lower");
                ("MAJOR CATEGORY", "JEANS"); ("FABRIC_SHEET", "DENIM");
                ("NECK STYLE", "Round")])).
  - simpl. rewrite !elem_of_cons. auto.
  - vm_compute. reflexivity.
  - compute_done.
  - vm_compute. eexists. reflexivity.
  - reflexivity.
  - discriminate.
  Unshelve. vm_compute. reflexivity.
Defined.

Lemma mapping_attribute_in_catalog_witness :
  ∃ r e, Sample.small_run = Some r ∧ e ∈ category_mappings r ∧
         map_attribute e = "SLEEVE_TYPE" ∧
         ∃ a, a ∈ attributes r ∧ attr_key a = map_attribute e.
Proof.
  assert (∀ (x y : CategoryMapping) l, y ∈ x :: y :: l) as Hsnd
    by (intros; apply elem_of_cons; right; apply elem_of_cons; by left).
  eexists. eexists. split; [vm_compute; reflexivity |].
  split; [apply Hsnd |]. split; [reflexivity |].
  eapply (mapping_attribute_in_catalog id Sample.small).
  - vm_compute. reflexivity.
  - apply Hsnd.
Defined.

Lemma attribute_label_is_header_witness :
  ∃ r a, Sample.small_run = Some r ∧ a ∈ attributes r ∧
         attr_key a = "NECK_STYLE" ∧ attr_label a = "NECK STYLE" ∧
         attr_label a = attr_full_form a.
Proof.
  eexists. eexists. split; [vm_compute; reflexivity |].
  split; [apply elem_of_cons; by left |].
  split; [reflexivity |]. split; [reflexivity |].
  eapply proj1, (attribute_label_is_header id Sample.small).
  - vm_compute. reflexivity.
  - apply elem_of_cons. by left.
Defined.

(** The "NECK STYLE" column of the sample: no companion column, the values
    "Round", "V-Shape", "Round". *)
Example small_neck_style :
  head <$> (attributes <$> Sample.small_run) =
  Some (Some
    {| attr_key := "NECK_STYLE"; attr_label := "NECK STYLE";
       attr_full_form := "NECK STYLE"; attr_category := design;
       attr_ai_extractable := true; attr_visible_from_distance := true;
       attr_extraction_priority := 95;
       attr_allowed_values :=
         [mk_value "Round" "Round"; mk_value "V-Shape" "V-Shape"] |}).
Proof. vm_compute. reflexivity. Qed.

(** * Further properties of the script *)

(** ** Classification of a key *)

Lemma smap_app f s1 s2 : Str.smap f (s1 +:+ s2) = Str.smap f s1 +:+ Str.smap f s2.
Proof.
  induction s1 as [|c s1 IH]; [done |].
  change (String c s1 +:+ s2) with (String c (s1 +:+ s2)). simpl.
  rewrite IH. done.
Qed.

(** X1: a key that [is_visible] rejects has the default priority 50: every
    keyword of the priority table is also a visibility keyword. *)
Theorem not_visible_default_priority key :
  is_visible key = false → get_priority key = 50.
Proof.
  unfold is_visible, any_in, visible_keywords. simpl. intros H.
  repeat (apply orb_false_iff in H as [? H]).
  unfold get_priority, priorities. simpl.
  repeat match goal with
         | E : Str.contains ?kw key = false |- _ => rewrite ?E; clear E
         end.
  done.
Qed.

Lemma not_visible_default_priority_witness :
  is_visible "GRAM_PER_SQUARE_METER" = false ∧
  get_priority "GRAM_PER_SQUARE_METER" = 50.
Proof.
  assert (is_visible "GRAM_PER_SQUARE_METER" = false) as H by reflexivity.
  split; [exact H | exact (not_visible_default_priority _ H)].
Defined.

(** X2: a key of the non-extractable list is classified fabric or
    technical, is not visible and has the default priority. *)
Theorem non_extractable_profile key :
  is_ai_extractable key = false →
  (categorize_attribute key = fabric ∨ categorize_attribute key = technical) ∧
  is_visible key = false ∧ get_priority key = 50.
Proof.
  unfold is_ai_extractable. intros H%bool_decide_eq_false%dec_stable.
  unfold non_extractable in H. rewrite !elem_of_cons, elem_of_nil in H.
  repeat (destruct H as [-> | H]; [vm_compute; auto |]). done.
Qed.

Lemma non_extractable_profile_witness :
  is_ai_extractable "SHADE" = false ∧ categorize_attribute "SHADE" = technical ∧
  is_visible "SHADE" = false ∧ get_priority "SHADE" = 50.
Proof.
  assert (is_ai_extractable "SHADE" = false) as H by reflexivity.
  destruct (non_extractable_profile "SHADE" H) as (_ & Hv & Hp).
  split; [exact H |]. split; [reflexivity |]. split; [exact Hv | exact Hp].
Defined.

(** X3: only GSM, OUNCE, SHADE or SIZE can make a name technical: COUNT,
    although listed among the technical keywords, is a fabric keyword too
    and fabric is tested first, in any letter case. *)
Theorem technical_only_by_own_keyword :
  (∀ name, categorize_attribute name = technical →
           any_in ["GSM"; "OUNCE"; "SHADE"; "SIZE"] (Str.upper name) = true) ∧
  (∀ pre post, categorize_attribute (pre +:+ "COUNT" +:+ post) = fabric) ∧
  (∀ pre post, categorize_attribute (pre +:+ "count" +:+ post) = fabric).
Proof.
  assert (∀ pre mid post,
            Str.upper mid = "COUNT" →
            categorize_attribute (pre +:+ mid +:+ post) = fabric) as Hcount.
  { intros pre mid post Hmid. unfold categorize_attribute, Str.upper.
    rewrite !smap_app. fold (Str.upper mid). rewrite Hmid.
    unfold any_in, fabric_keywords. simpl.
    rewrite StrFacts.contains_app. by rewrite !orb_true_r. }
  split; [| split; intros; by apply Hcount].
  intros name. unfold categorize_attribute.
  destruct (any_in fabric_keywords _) eqn:Hf; [done |].
  destruct (any_in design_keywords _); [done |].
  destruct (any_in technical_keywords _) eqn:Ht; [| done]. intros _.
  unfold any_in, fabric_keywords, technical_keywords in *. simpl in *.
  repeat (apply orb_false_iff in Hf as [? Hf]).
  destruct (Str.contains "COUNT" _); [done |].
  destruct (Str.contains "GSM" _), (Str.contains "OUNCE" _),
    (Str.contains "SHADE" _), (Str.contains "SIZE" _); done.
Qed.

(** ** The shape of a normalized key *)

Lemma rstrip_length s : (String.length (Str.rstrip s) ≤ String.length s)%nat.
Proof.
  induction s as [|c s IH]; simpl; [lia |].
  destruct (Str.rstrip s); [destruct (Str.is_space c) |]; simpl in *; lia.
Qed.

Lemma strip_length s : (String.length (Str.strip s) ≤ String.length s)%nat.
Proof.
  unfold Str.strip. pose proof (rstrip_length (Str.lstrip s)).
  pose proof (StrFacts.lstrip_length s). lia.
Qed.

Lemma smap_length f s : String.length (Str.smap f s) = String.length s.
Proof. induction s; simpl; congruence. Qed.

Lemma contains_char_smap f c s :
  (∀ d, f d ≠ c) → Str.contains (String c "") (Str.smap f s) = false.
Proof.
  intros Hf. induction s as [|a s IH]; [done |].
  simpl. rewrite IH. rewrite decide_False; [done |].
  intros E. by apply (Hf a).
Qed.

Lemma strip_strip s : Str.strip (Str.strip s) = Str.strip s.
Proof.
  unfold Str.strip at 1. by rewrite StrFacts.strip_lstrip, StrFacts.strip_rstrip.
Qed.

Lemma norm_char_upper c : Str.upper_char (norm_char c) = norm_char c.
Proof. destruct c as [[] [] [] [] [] [] [] []]; reflexivity. Qed.

Lemma norm_char_not_separator c :
  norm_char c ≠ "-"%char ∧ norm_char c ≠ " "%char ∧ norm_char c ≠ "/"%char.
Proof. destruct c as [[] [] [] [] [] [] [] []]; vm_compute; repeat split; congruence. Qed.

Lemma isascii_smap f s :
  (∀ c, Str.is_ascii_char c = true → Str.is_ascii_char (f c) = true) →
  Str.isascii s = true → Str.isascii (Str.smap f s) = true.
Proof.
  intros Hf. induction s as [|c s IH]; [done |].
  simpl. intros [Hc Hs]%andb_true_iff. by rewrite (Hf _ Hc), IH.
Qed.

Lemma isascii_lstrip s :
  Str.isascii s = true → Str.isascii (Str.lstrip s) = true.
Proof.
  induction s as [|c s IH]; [done |].
  simpl. destruct (Str.is_space c); [| done].
  intros [_ Hs]%andb_true_iff. auto.
Qed.

Lemma isascii_rstrip s :
  Str.isascii s = true → Str.isascii (Str.rstrip s) = true.
Proof.
  induction s as [|c s IH]; [done |].
  simpl. intros [Hc Hs]%andb_true_iff. specialize (IH Hs).
  destruct (Str.rstrip s); [destruct (Str.is_space c) |]; simpl in *;
    rewrite ?Hc; done.
Qed.

Lemma norm_char_ascii c :
  Str.is_ascii_char c = true → Str.is_ascii_char (norm_char c) = true.
Proof. destruct c as [[] [] [] [] [] [] [] []]; vm_compute; congruence. Qed.

(** X4: the key [normalize_key] returns for an ASCII header is ASCII,
    contains no hyphen, space or slash and no lower-case letter, has no
    whitespace at either end, and is no longer than the header. *)
Theorem normalize_key_shape s k :
  Str.isascii s = true → normalize_key s = Some k →
  Str.isascii k = true ∧
  Str.contains "-" k = false ∧ Str.contains " " k = false ∧
  Str.contains "/" k = false ∧ Str.upper k = k ∧ Str.strip k = k ∧
  (String.length k ≤ String.length s)%nat.
Proof.
  intros Hascii.
  rewrite StrFacts.normalize_key_smap. destruct (Str.truthy s); [| done].
  intros [= <-].
  repeat split.
  - apply isascii_smap; [apply norm_char_ascii |].
    by apply isascii_rstrip, isascii_lstrip.
  - apply contains_char_smap. intros d. apply norm_char_not_separator.
  - apply contains_char_smap. intros d. apply norm_char_not_separator.
  - apply contains_char_smap. intros d. apply norm_char_not_separator.
  - unfold Str.upper. rewrite StrFacts.smap_smap.
    apply StrFacts.smap_ext, norm_char_upper.
  - apply StrFacts.strip_smap;
      auto using StrFacts.norm_char_space, StrFacts.strip_lstrip,
                 StrFacts.strip_rstrip.
  - rewrite smap_length. apply strip_length.
Qed.

Lemma normalize_key_shape_witness :
  Str.isascii " Sleeve-Type/cut " = true ∧
  normalize_key " Sleeve-Type/cut " = Some "SLEEVE_TYPE_CUT" ∧
  Str.contains "-" "SLEEVE_TYPE_CUT" = false ∧
  Str.upper "SLEEVE_TYPE_CUT" = "SLEEVE_TYPE_CUT".
Proof.
  assert (normalize_key " Sleeve-Type/cut " = Some "SLEEVE_TYPE_CUT") as H
    by reflexivity.
  destruct (normalize_key_shape " Sleeve-Type/cut " _ eq_refl H)
    as (_ & H1 & _ & _ & H4 & _).
  split; [reflexivity |]. split; [exact H |]. split; [exact H1 | exact H4].
Defined.

Section SmapComm.
Variable f : ascii → ascii.
Hypothesis f_space : ∀ c, Str.is_space (f c) = Str.is_space c.

Lemma lstrip_smap_comm s : Str.lstrip (Str.smap f s) = Str.smap f (Str.lstrip s).
Proof using f_space.
  induction s as [|c s IH]; [done |].
  simpl. rewrite f_space. by destruct (Str.is_space c).
Qed.

Lemma rstrip_smap_comm s : Str.rstrip (Str.smap f s) = Str.smap f (Str.rstrip s).
Proof using f_space.
  induction s as [|c s IH]; [done |].
  simpl. rewrite IH, f_space.
  destruct (Str.rstrip s); simpl; [by destruct (Str.is_space c) | done].
Qed.

Lemma strip_smap_comm s : Str.strip (Str.smap f s) = Str.smap f (Str.strip s).
Proof using f_space.
  unfold Str.strip. by rewrite lstrip_smap_comm, rstrip_smap_comm.
Qed.

Lemma normalize_key_smap_comm s :
  (∀ c, norm_char (f c) = norm_char c) →
  normalize_key (Str.smap f s) = normalize_key s.
Proof using f_space.
  intros Hf. rewrite !StrFacts.normalize_key_smap.
  assert (Str.truthy (Str.smap f s) = Str.truthy s) as -> by by destruct s.
  rewrite strip_smap_comm, StrFacts.smap_smap.
  by rewrite (StrFacts.smap_ext _ norm_char).
Qed.

End SmapComm.

(** X5: ASCII headers that differ only in letter case, in a hyphen or
    slash written as an underscore, or in surrounding whitespace have the
    same key. *)
Theorem normalize_key_spellings s :
  Str.isascii s = true →
  normalize_key (Str.upper s) = normalize_key s ∧
  normalize_key (Str.replace "-" "_" s) = normalize_key s ∧
  normalize_key (Str.replace "/" "_" s) = normalize_key s ∧
  (Str.strip s ≠ "" → normalize_key (Str.strip s) = normalize_key s).
Proof.
  intros _. repeat split.
  - apply normalize_key_smap_comm;
      intros [[] [] [] [] [] [] [] []]; reflexivity.
  - apply normalize_key_smap_comm;
      intros [[] [] [] [] [] [] [] []]; reflexivity.
  - apply normalize_key_smap_comm;
      intros [[] [] [] [] [] [] [] []]; reflexivity.
  - intros Hs. rewrite !StrFacts.normalize_key_smap, strip_strip.
    unfold Str.truthy. rewrite !bool_decide_true; [done | | done].
    by intros ->.
Qed.

Lemma normalize_key_spellings_witness :
  Str.isascii "Sleeve Type" = true ∧ Str.isascii "  Sleeve Type " = true ∧
  normalize_key "SLEEVE TYPE" = normalize_key "Sleeve Type" ∧
  normalize_key "Sleeve Type" = normalize_key "  Sleeve Type ".
Proof.
  split; [reflexivity |]. split; [reflexivity |]. split.
  - exact (proj1 (normalize_key_spellings "Sleeve Type" eq_refl)).
  - symmetry.
    apply (proj2 (proj2 (proj2
             (normalize_key_spellings "  Sleeve Type " eq_refl)))).
    vm_compute. congruence.
Defined.

(** ** Aliases *)

(** X6: the alias list has no repeated entry and at most six entries, at
    most three when the full form equals the short form. *)
Theorem generate_aliases_NoDup_bound short_form full_form :
  NoDup (generate_aliases short_form full_form) ∧
  (length (generate_aliases short_form full_form) ≤ 6)%nat ∧
  (length (generate_aliases short_form short_form) ≤ 3)%nat.
Proof.
  assert (∀ s f, NoDup (generate_aliases s f)) as Hnd
    by (intros; apply NoDup_elements).
  split; [apply Hnd |]. split.
  - change 6%nat with
      (length [Str.strip short_form; Str.replace "_" " " short_form;
               Str.replace "-" " " short_form; Str.strip full_form;
               Str.replace "_" " " full_form; Str.replace "-" " " full_form]).
    apply submseteq_length, NoDup_submseteq; [apply Hnd |].
    intros a Ha%elem_of_generate_aliases. rewrite !elem_of_cons. tauto.
  - change 3%nat with
      (length [Str.strip short_form; Str.replace "_" " " short_form;
               Str.replace "-" " " short_form]).
    apply submseteq_length, NoDup_submseteq; [apply Hnd |].
    intros a Ha%elem_of_generate_aliases. rewrite !elem_of_cons. tauto.
Qed.

(** ** Departments and sub-divisions *)

Section Hierarchy.
Context {value : Type} `{EqDecision value} (str : value → string).
Implicit Types (t : table (value := value)) (r : gmap string value).

Lemma lookup_project cols r c : c ∈ cols → project cols r !! c = r !! c.
Proof.
  intros Hc. unfold project. rewrite map_lookup_filter.
  destruct (r !! c); simpl; [by rewrite option_guard_True | done].
Qed.

(** The rows of [df[cols].drop_duplicates().dropna(subset=sub)]. *)
Lemma elem_of_projected cols sub t r' :
  r' ∈ dropna sub (drop_duplicates (project cols <$> rows t)) ↔
  Forall (λ c, is_Some (r' !! c)) sub ∧ ∃ r, r ∈ rows t ∧ r' = project cols r.
Proof.
  unfold dropna. rewrite list_elem_of_filter, elem_of_drop_duplicates,
    list_elem_of_fmap. split; intros [? (r & ? & ?)]; eauto.
Qed.

Lemma elem_of_departments t d :
  d ∈ departments_of str t ↔
  ∃ r c f,
    r ∈ rows t ∧ r !! "FINISHED GOODS DIVISION" = Some c ∧
    r !! "FINISHED GOODS DIVISION FULL NAME" = Some f ∧
    d = {| dept_code := Str.strip (str c); dept_name := Str.strip (str c);
           dept_full_name := Str.strip (str f) |}.
Proof.
  unfold departments_of. rewrite list_elem_of_fmap.
  setoid_rewrite elem_of_projected. unfold dept_cols. split.
  - intros (r' & -> & Hall & r & Hr & ->).
    rewrite Forall_forall in Hall.
    destruct (Hall "FINISHED GOODS DIVISION") as [c Hc];
      [rewrite !elem_of_cons; auto |].
    destruct (Hall "FINISHED GOODS DIVISION FULL NAME") as [f Hf];
      [rewrite !elem_of_cons; auto |].
    rewrite Hc, Hf. rewrite lookup_project in Hc, Hf by (rewrite !elem_of_cons; auto).
    by exists r, c, f.
  - intros (r & c & f & Hr & Hc & Hf & ->).
    assert (project dept_cols r !! "FINISHED GOODS DIVISION" = Some c) as Hc'
      by (rewrite lookup_project; [done | unfold dept_cols; rewrite !elem_of_cons; auto]).
    assert (project dept_cols r !! "FINISHED GOODS DIVISION FULL NAME" = Some f) as Hf'
      by (rewrite lookup_project; [done | unfold dept_cols; rewrite !elem_of_cons; auto]).
    exists (project dept_cols r). unfold dept_cols in *. rewrite Hc', Hf'.
    split; [done |]. split; [| by exists r].
    repeat constructor; by eexists.
Qed.

Lemma elem_of_sub_divisions t s :
  s ∈ sub_divisions_of str t ↔
  ∃ r d c f,
    r ∈ rows t ∧ r !! "FINISHED GOODS DIVISION" = Some d ∧
    r !! "SUB-DIVISION" = Some c ∧ r !! "SUB-DIVISION FULL NAME" = Some f ∧
    s = {| sub_department_code := Str.strip (str d);
           sub_code := Str.strip (str c); sub_name := Str.strip (str c);
           sub_full_name := Str.strip (str f) |}.
Proof.
  unfold sub_divisions_of. rewrite list_elem_of_fmap.
  setoid_rewrite elem_of_projected. unfold subdiv_cols. split.
  - intros (r' & -> & Hall & r & Hr & ->).
    rewrite Forall_forall in Hall.
    destruct (Hall "FINISHED GOODS DIVISION") as [d Hd];
      [rewrite !elem_of_cons; auto |].
    destruct (Hall "SUB-DIVISION") as [c Hc]; [rewrite !elem_of_cons; auto |].
    destruct (Hall "SUB-DIVISION FULL NAME") as [f Hf];
      [rewrite !elem_of_cons; auto |].
    rewrite Hd, Hc, Hf.
    rewrite lookup_project in Hd, Hc, Hf by (rewrite !elem_of_cons; auto).
    by exists r, d, c, f.
  - intros (r & d & c & f & Hr & Hd & Hc & Hf & ->).
    assert (project subdiv_cols r !! "FINISHED GOODS DIVISION" = Some d) as Hd'
      by (rewrite lookup_project; [done | unfold subdiv_cols; rewrite !elem_of_cons; auto]).
    assert (project subdiv_cols r !! "SUB-DIVISION" = Some c) as Hc'
      by (rewrite lookup_project; [done | unfold subdiv_cols; rewrite !elem_of_cons; auto]).
    assert (project subdiv_cols r !! "SUB-DIVISION FULL NAME" = Some f) as Hf'
      by (rewrite lookup_project; [done | unfold subdiv_cols; rewrite !elem_of_cons; auto]).
    exists (project subdiv_cols r). unfold subdiv_cols in *. rewrite Hd', Hc', Hf'.
    split; [done |]. split; [| by exists r].
    repeat constructor; by eexists.
Qed.

(** X7: the departments of a run are exactly the stripped (code, full
    name) pairs of the rows that have both cells; the name of a department
    is its code; a row that lacks either cell contributes nothing. *)
Theorem departments_from_rows t res :
  parse_excel str t = Some res →
  ∀ d, d ∈ departments res ↔
       ∃ r c f,
         r ∈ rows t ∧ r !! "FINISHED GOODS DIVISION" = Some c ∧
         r !! "FINISHED GOODS DIVISION FULL NAME" = Some f ∧
         d = {| dept_code := Str.strip (str c); dept_name := Str.strip (str c);
                dept_full_name := Str.strip (str f) |}.
Proof.
  unfold parse_excel. case_decide; [| done]. intros [= <-] d. simpl.
  apply elem_of_departments.
Qed.

(** X8: the sub-divisions of a run are exactly the stripped (division
    code, code, full name) triples of the rows that have the three cells. *)
Theorem sub_divisions_from_rows t res :
  parse_excel str t = Some res →
  ∀ s, s ∈ sub_divisions res ↔
       ∃ r d c f,
         r ∈ rows t ∧ r !! "FINISHED GOODS DIVISION" = Some d ∧
         r !! "SUB-DIVISION" = Some c ∧ r !! "SUB-DIVISION FULL NAME" = Some f ∧
         s = {| sub_department_code := Str.strip (str d);
                sub_code := Str.strip (str c); sub_name := Str.strip (str c);
                sub_full_name := Str.strip (str f) |}.
Proof.
  unfold parse_excel. case_decide; [| done]. intros [= <-] s. simpl.
  apply elem_of_sub_divisions.
Qed.

(** X9: when every row that names a division also has the division's full
    name, the department code of every sub-division is the code of a
    department of the output. *)
Theorem sub_division_department_listed t res :
  parse_excel str t = Some res →
  (∀ r, r ∈ rows t → is_Some (r !! "FINISHED GOODS DIVISION") →
        is_Some (r !! "FINISHED GOODS DIVISION FULL NAME")) →
  ∀ s, s ∈ sub_divisions res →
       ∃ d, d ∈ departments res ∧ dept_code d = sub_department_code s.
Proof.
  unfold parse_excel. case_decide; [| done]. intros [= <-] Hfull s. simpl.
  intros (r & d & c & f & Hr & Hd & _ & _ & ->)%elem_of_sub_divisions.
  destruct (Hfull r Hr) as [fn Hfn]; [by eexists |].
  eexists. split; [apply elem_of_departments; eauto 10 | done].
Qed.

End Hierarchy.

Lemma departments_from_rows_witness :
  ∃ res, Sample.small_run = Some res ∧
         {| dept_code := "M"; dept_name := "M"; dept_full_name := "Mens" |}
           ∈ departments res.
Proof.
  eexists. split; [vm_compute; reflexivity |].
  eapply (departments_from_rows id Sample.small); [vm_compute; reflexivity |].
  eexists _, "M", "Mens". split; [apply elem_of_cons; by left |].
  split; [vm_compute; reflexivity |]. split; [vm_compute; reflexivity |].
  reflexivity.
Defined.

Lemma sub_divisions_from_rows_witness :
  ∃ res, Sample.small_run = Some res ∧
         {| sub_department_code := "M"; sub_code := "MU"; sub_name := "MU";
            sub_full_name := "Mens Upper" |} ∈ sub_divisions res.
Proof.
  eexists. split; [vm_compute; reflexivity |].
  eapply (sub_divisions_from_rows id Sample.small); [vm_compute; reflexivity |].
  eexists _, "M", "MU", "Mens Upper". split; [apply elem_of_cons; by left |].
  split; [vm_compute; reflexivity |]. split; [vm_compute; reflexivity |].
  split; [vm_compute; reflexivity |]. reflexivity.
Defined.

Lemma sub_division_department_listed_witness :
  ∃ res s, Sample.small_run = Some res ∧ s ∈ sub_divisions res ∧
           ∃ d, d ∈ departments res ∧ dept_code d = sub_department_code s.
Proof.
  eexists. eexists. split; [vm_compute; reflexivity |].
  split; [apply elem_of_cons; by left |].
  eapply (sub_division_department_listed id Sample.small).
  - vm_compute. reflexivity.
  - intros r Hr _. unfold Sample.small in Hr. simpl in Hr.
    rewrite !elem_of_cons, elem_of_nil in Hr.
    destruct Hr as [-> | [-> | [-> | []]]]; vm_compute; eauto.
  - apply elem_of_cons. by left.
Defined.

(** ** Major categories, continued *)

Lemma append_length s1 s2 :
  String.length (s1 +:+ s2) = (String.length s1 + String.length s2)%nat.
Proof.
  induction s1 as [|c s1 IH]; [done |].
  change (String c s1 +:+ s2) with (String c (s1 +:+ s2)). simpl. by rewrite IH.
Qed.

Lemma append_suffix_ne s x : s +:+ "_" +:+ x ≠ s.
Proof.
  intros E. apply (f_equal String.length) in E.
  rewrite !append_length in E. simpl in E. lia.
Qed.

Section CategoryLoop.
Context {value : Type} `{EqDecision value} (str : value → string).
Implicit Types (t : table (value := value)) (r : gmap string value).

(** [seen_codes] holds the codes emitted so far. *)
Lemma category_loop_seen (l : list (gmap string value)) c :
  c ∈ (foldl (add_category str) ([], ∅) l).2 ↔
  c ∈ mc_code <$> (foldl (add_category str) ([], ∅) l).1.
Proof.
  induction l as [|r l IH] using rev_ind; simpl.
  - rewrite elem_of_empty, elem_of_nil. tauto.
  - rewrite foldl_app. simpl.
    destruct (add_category_fst str (foldl (add_category str) ([], ∅) l) r)
      as (mc & -> & _ & _ & _ & ->).
    rewrite fmap_app, elem_of_app, elem_of_union, elem_of_singleton, IH.
    simpl. rewrite list_elem_of_singleton. tauto.
Qed.

Lemma category_loop_rule (l : list (gmap string value)) pre mc post :
  (foldl (add_category str) ([], ∅) l).1 = pre ++ mc :: post →
  mc_code mc =
    if decide (mc_name mc ∈ mc_code <$> pre)
    then mc_name mc +:+ "_" +:+ mc_fabric_sheet mc else mc_name mc.
Proof.
  revert post. induction l as [|r l IH] using rev_ind; intros post; simpl.
  - by destruct pre.
  - rewrite foldl_app. simpl.
    pose proof (category_loop_seen l) as Hseen.
    destruct (add_category_fst str (foldl (add_category str) ([], ∅) l) r)
      as (mc' & -> & _ & _ & Hcode & _).
    intros [(-> & -> & ->) | (post' & -> & E)]%snoc_split; [| by eapply IH].
    rewrite Hcode.
    destruct (decide (mc_name mc' ∈ (foldl (add_category str) ([], ∅) l).2))
      as [H1 | H1],
      (decide (mc_name mc' ∈ mc_code <$> (foldl (add_category str) ([], ∅) l).1))
      as [H2 | H2]; try done; [by apply Hseen in H1 | by apply Hseen in H2].
Qed.

Lemma elem_of_cat_df t r' :
  r' ∈ cat_df t ↔
  is_Some (r' !! "MAJOR CATEGORY") ∧ ∃ r, r ∈ rows t ∧ r' = project cat_cols r.
Proof.
  unfold cat_df. rewrite elem_of_projected, Forall_singleton. done.
Qed.

(** X10: the loop emits one major category per row of [cat_df], in order,
    none dropped; the rows of [cat_df] are pairwise distinct; each entry
    keeps the stripped category of its row as its name. *)
Theorem major_categories_follow_rows t res :
  parse_excel str t = Some res →
  length (major_categories res) = length (cat_df t) ∧
  NoDup (cat_df t) ∧
  mc_name <$> major_categories res =
    (λ r, Str.strip (str_cell str (r !! "MAJOR CATEGORY"))) <$> cat_df t.
Proof.
  unfold parse_excel. case_decide; [| done]. intros [= <-]. simpl.
  split; [apply major_categories_length |].
  split; [| apply major_categories_names].
  unfold cat_df, dropna. apply NoDup_filter, NoDup_drop_duplicates_from.
Qed.

(** X11: the code of an entry is its name when no earlier entry has that
    name as its code, and the name, an underscore and the sheet otherwise;
    so the code equals the name exactly in the first case. *)
Theorem major_category_code_rule t res pre mc post :
  parse_excel str t = Some res →
  major_categories res = pre ++ mc :: post →
  mc_code mc =
    (if decide (mc_name mc ∈ mc_code <$> pre)
     then mc_name mc +:+ "_" +:+ mc_fabric_sheet mc else mc_name mc) ∧
  (mc_code mc = mc_name mc ↔ mc_name mc ∉ mc_code <$> pre).
Proof.
  unfold parse_excel. case_decide; [| done]. intros [= <-]. simpl.
  intros Hrule%category_loop_rule. split; [done |].
  rewrite Hrule. case_decide; [| done].
  split; [by intros ?%append_suffix_ne | done].
Qed.

(** X12: the major category of every mapping edge is the name of a major
    category of the output (its name, not necessarily its code). *)
Theorem mapping_category_listed t res e :
  parse_excel str t = Some res → e ∈ category_mappings res →
  ∃ mc, mc ∈ major_categories res ∧ mc_name mc = map_major_category e.
Proof.
  unfold parse_excel. case_decide; [| done]. intros [= <-]. simpl.
  pose proof (major_categories_names str t) as Hnames.
  intros (c & col & r & Hr & Hc & _ & _ & _ & _ & Hm)%elem_of_category_mappings.
  assert (map_major_category e ∈ mc_name <$> major_categories_of str t) as Hin.
  { rewrite Hnames, Hm. apply list_elem_of_fmap. exists (project cat_cols r).
    assert (project cat_cols r !! "MAJOR CATEGORY" = Some c) as Hc'
      by (rewrite lookup_project; [done | unfold cat_cols; rewrite !elem_of_cons; auto]).
    rewrite Hc'. split; [done |]. apply elem_of_cat_df. rewrite Hc'. eauto. }
  apply list_elem_of_fmap in Hin as (mc & ? & ?). eauto.
Qed.

End CategoryLoop.

(** ** Allowed values, continued *)


Section ValueCatalog.
Context {value : Type} `{EqDecision value} (str : value → string).
Implicit Types (t : table (value := value)) (r : gmap string value).

Lemma elem_of_value_pairs t col s f :
  (s, f) ∈ value_pairs str t col ↔
  ∃ r x,
    r ∈ rows t ∧ r !! col = Some x ∧ s = Str.strip (str x) ∧
    if decide ((col +:+ " FULL NAME") ∈ columns t)
    then ∃ y, r !! (col +:+ " FULL NAME") = Some y ∧ f = Str.strip (str y)
    else f = s.
Proof.
  unfold value_pairs. simpl.
  destruct (decide ((col +:+ " FULL NAME") ∈ columns t)) as [Hfull | Hfull];
    [rewrite bool_decide_true by done | rewrite bool_decide_false by done];
    rewrite list_elem_of_fmap.
  - setoid_rewrite elem_of_projected. split.
    + intros (r' & [= -> ->] & Hall & r & Hr & ->).
      rewrite Forall_forall in Hall.
      destruct (Hall col) as [x Hx]; [rewrite !elem_of_cons; auto |].
      destruct (Hall (col +:+ " FULL NAME")) as [y Hy]; [rewrite !elem_of_cons; auto |].
      rewrite Hx, Hy. rewrite lookup_project in Hx, Hy by (rewrite !elem_of_cons; auto).
      exists r, x. eauto 8.
    + intros (r & x & Hr & Hx & -> & y & Hy & ->).
      exists (project [col; col +:+ " FULL NAME"] r).
      rewrite !lookup_project by (rewrite !elem_of_cons; auto).
      rewrite Hx, Hy. split; [done |]. split; [| by exists r].
      repeat constructor; rewrite lookup_project by (rewrite !elem_of_cons; auto);
        by eexists.
  - setoid_rewrite elem_of_drop_duplicates. setoid_rewrite list_elem_of_omap. split.
    + intros (x & [= -> ->] & r & Hr & Hx). by exists r, x.
    + intros (r & x & Hr & Hx & -> & ->). exists x. eauto.
Qed.

Lemma value_pairs_stripped t col s f :
  (s, f) ∈ value_pairs str t col → Str.strip s = s ∧ Str.strip f = f.
Proof.
  intros (r & x & _ & _ & -> & Hf)%elem_of_value_pairs.
  case_decide; [destruct Hf as (y & _ & ->) | subst f]; by rewrite !strip_strip.
Qed.

(** An allowed value of a catalogued attribute, with the candidate pair it
    was built from. *)
Lemma allowed_value_inv t a v :
  a ∈ attributes_of str t → v ∈ attr_allowed_values a →
  (av_short_form v, av_full_form v) ∈ value_pairs str t (attr_label a) ∧
  av_aliases v = generate_aliases (av_short_form v) (av_full_form v).
Proof.
  intros (pre & col & post & _ & _ & _ & _ & ->)%attribute_loop_first. simpl.
  rewrite allowed_values_of_pairs.
  intros (pre' & full & post' & E & _ & ->)%value_loop_first. simpl.
  split; [| done]. rewrite E, elem_of_app, elem_of_cons. auto.
Qed.

(** X13: in every allowed value of the output the short form and the full
    form are stripped, and each of them, unless empty, is among the aliases
    of the value. *)
Theorem value_forms_among_aliases t res a v :
  parse_excel str t = Some res →
  a ∈ attributes res → v ∈ attr_allowed_values a →
  Str.strip (av_short_form v) = av_short_form v ∧
  Str.strip (av_full_form v) = av_full_form v ∧
  (av_short_form v ≠ "" → av_short_form v ∈ av_aliases v) ∧
  (av_full_form v ≠ "" → av_full_form v ∈ av_aliases v).
Proof.
  unfold parse_excel. case_decide; [| done]. intros [= <-]. simpl.
  intros Ha Hv. destruct (allowed_value_inv t a v Ha Hv) as [Hin ->].
  apply value_pairs_stripped in Hin as [Hs Hf].
  repeat split; [done | done | |]; intros Hne; apply elem_of_generate_aliases.
  - split; [done |]. left. rewrite Hs. auto.
  - split; [done |].
    destruct (decide (av_full_form v = av_short_form v)) as [E | E].
    + left. rewrite <- E, Hf. auto.
    + right. rewrite Hf. auto.
Qed.


(** X15: the catalog never lists a hierarchy column, a placeholder
    ("Unnamed") column or a column whose header contains "FULL NAME", and
    no attribute has the empty key. *)
Theorem catalog_attribute_columns_only t res a :
  parse_excel str t = Some res → a ∈ attributes res →
  (attr_label a ∉ HIERARCHY_COLS) ∧
  Str.startswith "Unnamed" (attr_label a) = false ∧
  Str.contains "FULL NAME" (attr_label a) = false ∧
  attr_key a ≠ "".
Proof.
  unfold parse_excel. case_decide; [| done]. intros [= <-]. simpl.
  intros (pre & col & post & E & _ & Hne & _ & ->)%attribute_loop_first. simpl.
  assert (col ∈ attr_cols t) as Hin
    by (rewrite E, elem_of_app, elem_of_cons; auto).
  unfold attr_cols, all_cols in Hin.
  apply list_elem_of_filter in Hin as [? [[? ?] _]%list_elem_of_filter]. done.
Qed.

(** X16: on a table without rows the run still lists every attribute
    column, each with no allowed value, and every other output is empty. *)
Theorem empty_table_output t res :
  rows t = [] → parse_excel str t = Some res →
  departments res = [] ∧ sub_divisions res = [] ∧ major_categories res = [] ∧
  category_mappings res = [] ∧
  (∀ a, a ∈ attributes res → attr_allowed_values a = []) ∧
  (∀ col k, col ∈ attr_cols t → normalize_key col = Some k → k ≠ "" →
            k ∈ attr_key <$> attributes res).
Proof.
  intros Hrows. unfold parse_excel. case_decide; [| done]. intros [= <-]. simpl.
  unfold departments_of, sub_divisions_of, major_categories_of, cat_df,
    category_mappings_of. rewrite Hrows. simpl.
  repeat split; try done.
  - intros a (pre & col & post & _ & _ & _ & _ & ->)%attribute_loop_first. simpl.
    unfold allowed_values_of. rewrite Hrows. by case_bool_decide.
  - intros col k. apply attribute_loop_covers.
Qed.

End ValueCatalog.

(** ** Reading the workbook *)


Lemma SHEETS_stripped name : name ∈ SHEETS → Str.strip name = name.
Proof.
  unfold SHEETS. rewrite !elem_of_cons, elem_of_nil.
  intros H. repeat (destruct H as [-> | H]; [reflexivity |]). done.
Qed.

Section LoaderFacts.
Context {value : Type} `{EqDecision value}.
Context (of_str : string → value).
Implicit Types (t df : table (value := value)) (r : gmap string value).

Lemma concat_Some (all_data : list (table (value := value))) t :
  concat all_data = Some t ↔
  all_data ≠ [] ∧
  t = {| columns := drop_duplicates (all_data ≫= columns);
         rows := all_data ≫= rows |}.
Proof.
  destruct all_data; simpl; [split; [done | by intros [? _]] |].
  split; [by intros [= <-] | by intros [_ ->]].
Qed.

Lemma tag_sheet_columns name df c :
  c ∈ columns (tag_sheet of_str name df) ↔ c = "FABRIC_SHEET" ∨ c ∈ columns df.
Proof.
  unfold tag_sheet. simpl. case_decide as Hc.
  - split; [auto | by intros [-> | ?]].
  - rewrite elem_of_app, list_elem_of_singleton. tauto.
Qed.

Context (read_excel : string → option (table (value := value))).

Lemma elem_of_read_sheets df' :
  df' ∈ read_sheets of_str read_excel ↔
  ∃ name df, name ∈ SHEETS ∧ read_excel name = Some df ∧
             df' = tag_sheet of_str name df.
Proof.
  unfold read_sheets. rewrite list_elem_of_omap. split.
  - intros (name & Hin & Hdf).
    destruct (read_excel name) as [df|] eqn:E; [| done].
    injection Hdf as <-. eauto.
  - intros (name & df & Hin & Hdf & ->). exists name. by rewrite Hdf.
Qed.

Lemma read_sheets_nil :
  read_sheets of_str read_excel = [] ↔
  ∀ name, name ∈ SHEETS → read_excel name = None.
Proof.
  split.
  - intros Hnil name Hin. destruct (read_excel name) as [df|] eqn:Hdf; [| done].
    assert (tag_sheet of_str name df ∈ read_sheets of_str read_excel) as Hd
      by (apply elem_of_read_sheets; eauto).
    rewrite Hnil in Hd. by apply elem_of_nil in Hd.
  - intros Hnone. destruct (read_sheets of_str read_excel) as [|df' l] eqn:E; [done |].
    assert (df' ∈ read_sheets of_str read_excel) as Hd
      by (rewrite E; apply elem_of_cons; auto).
    apply elem_of_read_sheets in Hd as (name & df & Hin & Hdf & _).
    by rewrite Hnone in Hdf.
Qed.



Lemma combined_columns t c :
  concat (read_sheets of_str read_excel) = Some t →
  c ∈ columns t ↔
  c = "FABRIC_SHEET" ∨
  ∃ name df, name ∈ SHEETS ∧ read_excel name = Some df ∧ c ∈ columns df.
Proof.
  intros [Hne ->]%concat_Some. simpl.
  rewrite elem_of_drop_duplicates, list_elem_of_bind. split.
  - intros (df' & Hc & (name & df & Hin & Hdf & ->)%elem_of_read_sheets).
    apply tag_sheet_columns in Hc as [-> | Hc]; eauto 6.
  - intros [-> | (name & df & Hin & Hdf & Hc)].
    + destruct (read_sheets of_str read_excel) as [|df' l] eqn:E; [done |].
      assert (df' ∈ read_sheets of_str read_excel) as Hd
        by (rewrite E; apply elem_of_cons; auto).
      exists df'. split; [| apply elem_of_cons; auto].
      apply elem_of_read_sheets in Hd as (name & df & _ & _ & ->).
      apply tag_sheet_columns. auto.
    + exists (tag_sheet of_str name df). split.
      * apply tag_sheet_columns. auto.
      * apply elem_of_read_sheets. eauto.
Qed.

Lemma combined_rows_sheet t r :
  concat (read_sheets of_str read_excel) = Some t → r ∈ rows t →
  ∃ name, name ∈ SHEETS ∧ r !! "FABRIC_SHEET" = Some (of_str name).
Proof.
  intros [_ ->]%concat_Some. simpl.
  intros (df' & Hr & (name & df & Hin & _ & ->)%elem_of_read_sheets)
    %list_elem_of_bind.
  simpl in Hr. apply list_elem_of_fmap in Hr as (r0 & -> & _).
  exists name. by rewrite lookup_insert_eq.
Qed.





Context (str : value → string).

(** X18: a run gives no result when none of the nine sheets can be read
    ([pd.concat] raises on the empty list), and when one of the hierarchy
    columns the projections index is a column of no sheet that could be
    read ([KeyError]). *)
Theorem run_fails_without_sheet_or_column :
  ((∀ name, name ∈ SHEETS → read_excel name = None) →
   parse_excel_file str of_str read_excel = None) ∧
  (∀ c, c ∈ required_cols → c ≠ "FABRIC_SHEET" →
        (∀ name df, name ∈ SHEETS → read_excel name = Some df →
                    c ∉ columns df) →
        parse_excel_file str of_str read_excel = None).
Proof.
  unfold parse_excel_file. split.
  - intros Hnone%read_sheets_nil. by rewrite Hnone.
  - intros c Hc Hfs Hnone.
    destruct (concat (read_sheets of_str read_excel)) as [t|] eqn:Ht; [| done].
    simpl. unfold parse_excel. case_decide as Hreq; [| done]. exfalso.
    apply Hreq, (combined_columns t c Ht) in Hc
      as [? | (name & df & ? & ? & ?)]; [done |].
    by eapply Hnone.
Qed.

Lemma category_loop_sheets (l : list (gmap string value)) :
  mc_fabric_sheet <$> (foldl (add_category str) ([], ∅) l).1 =
  (λ r, Str.strip (str_cell str (r !! "FABRIC_SHEET"))) <$> l.
Proof.
  induction l as [|r l IH] using rev_ind; [done |].
  rewrite foldl_app. simpl.
  destruct (add_category_fst str (foldl (add_category str) ([], ∅) l) r)
    as (mc & -> & _ & Hsheet & _).
  rewrite !fmap_app, IH. simpl. by rewrite Hsheet.
Qed.

Hypothesis str_of_str : ∀ s, str (of_str s) = s.

(** X19: when [str] gives back the text of a text cell, the fabric sheet
    of every major category of a run is one of the nine sheet names. *)
Theorem major_category_sheet_listed res mc :
  parse_excel_file str of_str read_excel = Some res →
  mc ∈ major_categories res → mc_fabric_sheet mc ∈ SHEETS.
Proof using str_of_str.
  unfold parse_excel_file.
  destruct (concat (read_sheets of_str read_excel)) as [t|] eqn:Ht; [| done].
  simpl. pose proof (combined_rows_sheet t) as Htag.
  unfold parse_excel. case_decide; [| done]. intros [= <-]. simpl.
  intros Hmc. apply (list_elem_of_fmap_2 mc_fabric_sheet) in Hmc.
  unfold major_categories_of in Hmc. rewrite category_loop_sheets in Hmc.
  apply list_elem_of_fmap in Hmc as (r' & -> & (_ & r & Hr & ->)%elem_of_cat_df).
  rewrite lookup_project by (unfold cat_cols; rewrite !elem_of_cons; auto 10).
  destruct (Htag r Ht Hr) as (name & Hin & ->). simpl.
  by rewrite str_of_str, SHEETS_stripped.
Qed.

End LoaderFacts.

(** ** The sample tables, continued *)

Lemma major_categories_follow_rows_witness :
  ∃ res, Sample.small_run = Some res ∧
         length (major_categories res) = length (cat_df Sample.small) ∧
         length (major_categories res) = 3%nat.
Proof.
  eexists. split; [vm_compute; reflexivity |]. split; [| reflexivity].
  eapply proj1, (major_categories_follow_rows id Sample.small).
  vm_compute. reflexivity.
Defined.

Lemma major_category_code_rule_witness :
  ∃ res pre mc post,
    parse_excel id Sample.three_merch_codes = Some res ∧
    major_categories res = pre ++ mc :: post ∧
    mc_name mc = "KNIT-TOP" ∧ mc_code <$> pre = ["KNIT-TOP"] ∧
    mc_code mc =
      (if decide (mc_name mc ∈ mc_code <$> pre)
       then mc_name mc +:+ "_" +:+ mc_fabric_sheet mc else mc_name mc).
Proof.
  eexists _, [_], _, _. split; [vm_compute; reflexivity |].
  split; [reflexivity |]. split; [reflexivity |]. split; [reflexivity |].
  eapply proj1, (major_category_code_rule id Sample.three_merch_codes).
  - vm_compute. reflexivity.
  - reflexivity.
Defined.

Lemma mapping_category_listed_witness :
  ∃ res e, Sample.small_run = Some res ∧ e ∈ category_mappings res ∧
           map_major_category e = "KNIT-TOP" ∧
           ∃ mc, mc ∈ major_categories res ∧ mc_name mc = map_major_category e.
Proof.
  eexists. eexists. split; [vm_compute; reflexivity |].
  split; [apply elem_of_cons; by left |]. split; [reflexivity |].
  eapply (mapping_category_listed id Sample.small).
  - vm_compute. reflexivity.
  - apply elem_of_cons. by left.
Defined.

Lemma value_forms_among_aliases_witness :
  ∃ res a v, Sample.small_run = Some res ∧ a ∈ attributes res ∧
             v ∈ attr_allowed_values a ∧ av_short_form v = "Round" ∧
             Str.strip (av_short_form v) = av_short_form v.
Proof.
  eexists. eexists. eexists. split; [vm_compute; reflexivity |].
  split; [apply elem_of_cons; by left |].
  split; [apply elem_of_cons; by left |]. split; [reflexivity |].
  eapply proj1, (value_forms_among_aliases id Sample.small).
  - vm_compute. reflexivity.
  - apply elem_of_cons. by left.
  - apply elem_of_cons. by left.
Defined.


Lemma catalog_attribute_columns_only_witness :
  ∃ res a, Sample.small_run = Some res ∧ a ∈ attributes res ∧
           attr_label a = "SLEEVE TYPE" ∧
           (attr_label a ∉ HIERARCHY_COLS) ∧
           Str.startswith "Unnamed" (attr_label a) = false ∧
           Str.contains "FULL NAME" (attr_label a) = false ∧
           attr_key a ≠ "".
Proof.
  assert (∀ (x y : Attribute) l, y ∈ x :: y :: l) as Hsnd
    by (intros; apply elem_of_cons; right; apply elem_of_cons; by left).
  eexists. eexists. split; [vm_compute; reflexivity |].
  split; [apply Hsnd |]. split; [reflexivity |].
  eapply (catalog_attribute_columns_only id Sample.small).
  - vm_compute. reflexivity.
  - apply Hsnd.
Defined.

Lemma empty_table_output_witness :
  ∃ res, rows Sample.headers_only = [] ∧
         parse_excel id Sample.headers_only = Some res ∧
         attr_key <$> attributes res = ["NECK_STYLE"] ∧
         departments res = [].
Proof.
  eexists. split; [reflexivity |]. split; [vm_compute; reflexivity |].
  split; [reflexivity |].
  eapply proj1, (empty_table_output id Sample.headers_only).
  - reflexivity.
  - vm_compute. reflexivity.
Defined.


Lemma run_fails_without_sheet_or_column_witness :
  parse_excel_file id id Sample.no_sheets = None ∧
  parse_excel_file id id Sample.knits_only = None.
Proof.
  split.
  - apply (proj1 (run_fails_without_sheet_or_column id Sample.no_sheets id)).
    reflexivity.
  - apply (proj2 (run_fails_without_sheet_or_column id Sample.knits_only id)
             "FINISHED GOODS DIVISION").
    + compute_done.
    + discriminate.
    + intros name df _. unfold Sample.knits_only.
      case_decide; [| done]. intros [= <-]. compute_done.
Defined.

Lemma major_category_sheet_listed_witness :
  ∃ res mc, Sample.two_sheets_run = Some res ∧ mc ∈ major_categories res ∧
            mc_code mc = "KNIT-TOP_DENIM" ∧ mc_fabric_sheet mc ∈ SHEETS.
Proof.
  assert (∀ (x y : MajorCategory) l, y ∈ x :: y :: l) as Hsnd
    by (intros; apply elem_of_cons; right; apply elem_of_cons; by left).
  eexists. eexists. split; [vm_compute; reflexivity |].
  split; [apply Hsnd |]. split; [reflexivity |].
  eapply (major_category_sheet_listed id Sample.two_sheets id).
  - reflexivity.
  - vm_compute. reflexivity.
  - apply Hsnd.
Defined.
